(** * atlas.stats: the sampling, differencing and ranking engine

    A shallow embedding of [pkg/stats/stats.go]: the [Monitor] with its two
    per-PID caches, one poll ([GetStats]) and the ranking helper [getTop].

    Go's [float64] is the kernel's binary64 float, [uint64]/[int64]/[int32]/
    [int] values are integers in [Z] with the wrap-around written out, Go
    maps are [gmap]s, and a Go call returning [(value, error)] is an
    [option] ([None] when [err != nil], the value being then the type's zero
    value, which is what gopsutil returns next to an error). *)

From Stdlib Require Import ZArith Lia Bool List String Sorted Permutation.
From Stdlib Require Import Uint63 Floats.
From stdpp Require Import base option list sorting gmap.

Local Open Scope Z_scope.

(** ** Go numbers *)

Module GoNum.

(** [uint64] arithmetic wraps modulo 2^64. *)
Definition wrap64 (z : Z) : Z := z mod 2 ^ 64.

Definition in_uint64 (z : Z) : bool := (0 <=? z) && (z <? 2 ^ 64).

(** [float64(x)] for an integer [x] with [|x| < 2^63] ([int64] durations):
    the nearest binary64, ties to even. *)
Definition float64_of_int (z : Z) : float :=
  if z <? 0 then PrimFloat.opp (PrimFloat.of_uint63 (Uint63.of_Z (- z)))
  else PrimFloat.of_uint63 (Uint63.of_Z z).

Definition two32 : float := Eval cbv in PrimFloat.of_uint63 4294967296%uint63.

(** [float64(x)] for [x : uint64]: the high half scaled by 2^32 is exact,
    the low half is exact, and the one addition rounds the exact sum, so
    the result is the nearest binary64 of [x]. *)
Definition float64_of_uint64 (z : Z) : float :=
  PrimFloat.add
    (PrimFloat.mul (PrimFloat.of_uint63 (Uint63.of_Z (z / 2 ^ 32))) two32)
    (PrimFloat.of_uint63 (Uint63.of_Z (z mod 2 ^ 32))).

(** The integer part of a float (truncation towards zero); [None] for NaN
    and the infinities. *)
Definition trunc_float (f : float) : option Z :=
  match Prim2SF f with
  | S754_zero _ => Some 0
  | S754_finite s m e => Some (cond_Zopp s (Z.shiftl (Z.pos m) e))
  | S754_infinity _ | S754_nan => None
  end.

(** What Go leaves to the implementation: the result of [uint64(f)] when
    the truncated [f] is not a [uint64] value.  Whatever the platform
    yields is a [uint64], hence the wrap. *)
Record Target := { uint64_out_of_range : float -> Z }.

(** [uint64(f)] *)
Definition uint64_of_float (P : Target) (f : float) : Z :=
  match trunc_float f with
  | Some z => if in_uint64 z then z else wrap64 (uint64_out_of_range P f)
  | None => wrap64 (uint64_out_of_range P f)
  end.

End GoNum.

Import GoNum.

(** ** Package [time], as far as [GetStats] uses it *)

Module GoTime.

(** A [time.Time] taken by [time.Now()] carries a monotonic clock reading, and
    [Sub] of two such values is the difference of the readings: a
    [Duration], that is an [int64] count of nanoseconds, saturated. *)
Definition Time := Z.
Definition Duration := Z.

Definition minDuration : Duration := - 2 ^ 63.
Definition maxDuration : Duration := 2 ^ 63 - 1.

Definition Sub (t u : Time) : Duration :=
  Z.max minDuration (Z.min maxDuration (t - u)).

Definition Second : Duration := 1000000000.

Definition float_1e9 : float := Eval cbv in PrimFloat.of_uint63 1000000000%uint63.

(** [func (d Duration) Seconds() float64]:
    [sec := d / Second; nsec := d % Second;
     return float64(sec) + float64(nsec)/1e9]
    (Go's [/] and [%] truncate towards zero). *)
Definition Seconds (d : Duration) : float :=
  let sec := Z.quot d Second in
  let nsec := Z.rem d Second in
  PrimFloat.add (float64_of_int sec) (PrimFloat.div (float64_of_int nsec) float_1e9).

End GoTime.

Import GoTime.

(** ** Data model ([stats.go], lines 16-59) *)

Record ProcessInfo := {
  PID : Z;          (* int32 *)
  Name : string;
  CPU : float;      (* float64 *)
  Mem : Z;          (* uint64 *)
  DiskIO : Z;       (* uint64, cumulative *)
  DiskRate : Z;     (* uint64, bytes per second *)
  NetConns : Z      (* int *)
}.

Record DiskInfo := {
  Path : string;
  Total : Z;
  Used : Z;
  Free : Z;
  UsedPercent : float
}.

Record SystemStats := {
  CPUUsage : float;
  MemoryTotal : Z;
  MemoryUsed : Z;
  MemoryFree : Z;
  Disks : list DiskInfo;
  Uptime : Z;
  Hostname : string;
  OS : string;
  Platform : string;
  NetSent : Z;
  NetRecv : Z;
  TopCPU : list ProcessInfo;
  TopMem : list ProcessInfo;
  TopDisk : list ProcessInfo;
  TopNet : list ProcessInfo
}.

(** A [*process.Process]: the provider's handle on one process. *)
Record Process := { handle : Z }.

Record Monitor := {
  procs : gmap Z Process;
  lastStats : gmap Z ProcessInfo;
  lastTime : Time
}.

(** [NewMonitor], with the reading of [time.Now()] made explicit. *)
Definition NewMonitor (now : Time) : Monitor :=
  {| procs := ∅; lastStats := ∅; lastTime := now |}.

(** ** The gopsutil provider: what each query answers during one poll *)

Record VirtualMemoryStat := { vm_Total : Z; vm_Used : Z; vm_Free : Z }.
Record PartitionStat := { Device : string; Mountpoint : string }.
Record UsageStat := { u_Total : Z; u_Used : Z; u_Free : Z; u_UsedPercent : float }.
Record InfoStat := { i_Uptime : Z; i_Hostname : string; i_OS : string; i_Platform : string }.
Record NetIOCountersStat := { BytesSent : Z; BytesRecv : Z }.
Record MemoryInfoStat := { RSS : Z }.
Record IOCountersStat := { ReadBytes : Z; WriteBytes : Z }.
Record ConnectionStat := { Fd : Z; Status : string }.

Record Provider := {
  cpu_Percent : option (list float);
  mem_VirtualMemory : option VirtualMemoryStat;
  disk_Partitions : option (list PartitionStat);
  disk_Usage : string -> option UsageStat;
  host_Info : option InfoStat;
  net_IOCounters : option (list NetIOCountersStat);
  process_Pids : option (list Z);
  time_Now : Time;
  process_NewProcess : Z -> option Process;
  proc_Name : Process -> option string;
  proc_CPUPercent : Process -> option float;
  proc_MemoryInfo : Process -> option MemoryInfoStat;
  proc_IOCounters : Process -> option IOCountersStat;
  proc_Connections : Process -> option (list ConnectionStat)
}.

(** ** [getTop] (lines 238-251) on a heap of backing arrays

    [getTop] allocates, copies and sorts in place, so it is embedded with
    the store it works on: a slice is a backing array and a length. *)

Module Slices.

Abbreviation loc := positive (only parsing).
Abbreviation heap := (gmap positive (list ProcessInfo)) (only parsing).

(** The nil slice has no backing array. *)
Record slice := { s_arr : option loc; s_len : nat }.

Definition nil_slice : slice := {| s_arr := None; s_len := 0 |}.

Definition len (s : slice) : nat := s_len s.

Definition backing (h : heap) (s : slice) : list ProcessInfo :=
  match s_arr s with
  | Some l => default [] (h !! l)
  | None => []
  end.

(** The elements a slice shows: the first [len] of its backing array. *)
Definition contents (h : heap) (s : slice) : list ProcessInfo :=
  take (s_len s) (backing h s).

(** A slice of the program points into an allocated array, within it. *)
Definition valid (h : heap) (s : slice) : Prop :=
  match s_arr s with
  | Some l => exists a, h !! l = Some a /\ (s_len s <= length a)%nat
  | None => s_len s = 0%nat
  end.

Definition zero_ProcessInfo : ProcessInfo :=
  {| PID := 0; Name := ""; CPU := 0%float; Mem := 0; DiskIO := 0;
     DiskRate := 0; NetConns := 0 |}.

(** [make([]ProcessInfo, n)] *)
Definition make (n : nat) (h : heap) : slice * heap :=
  let l := fresh (dom h) in
  ({| s_arr := Some l; s_len := n |}, <[l := replicate n zero_ProcessInfo]> h).

(** [copy(dst, src)]: the first [min(len(dst), len(src))] elements. *)
Definition copy (dst src : slice) (h : heap) : heap :=
  match s_arr dst with
  | Some l =>
      let n := Nat.min (s_len dst) (s_len src) in
      <[l := take n (contents h src) ++ drop n (backing h dst)]> h
  | None => h
  end.

(** [s[:n]] *)
Definition reslice (s : slice) (n : nat) : slice :=
  {| s_arr := s_arr s; s_len := n |}.

Section Sort.
Context {A : Type} (less : A -> A -> bool).

(** One round of the insertion: [x] is swapped leftwards while it is
    [less] than its left neighbour.  The sorted prefix is held with
    its last element first. *)
Fixpoint sift (x : A) (r : list A) : list A :=
  match r with
  | [] => [x]
  | y :: r' => if less x y then y :: sift x r' else x :: r
  end.

(** A stable sort, as [sort.SliceStable] is: the insertion sort the Go
    library itself runs on a slice of at most 20 elements.  A longer slice
    the library sorts in blocks of 20 that it then merges; its result is
    this one whenever [less] is a strict weak ordering of the elements
    ([SortFacts.stable_sort_unique]: the stable sort is then unique).  Only
    for more than 20 samples with a NaN among the CPU percentages may the
    library's order differ from this one. *)
Definition stable_sort (l : list A) : list A :=
  rev (fold_left (fun r x => sift x r) l []).
End Sort.

(** [sort.SliceStable(s, func(i, j int) bool { return less(s[i], s[j]) })]:
    the elements of [s] are rearranged in its backing array. *)
Definition SliceStable (s : slice) (less : ProcessInfo -> ProcessInfo -> bool)
    (h : heap) : heap :=
  match s_arr s with
  | Some l => <[l := stable_sort less (contents h s) ++ drop (s_len s) (backing h s)]> h
  | None => h
  end.

Definition getTop (procs : slice) (less : ProcessInfo -> ProcessInfo -> bool)
    (limit : nat) (h : heap) : slice * heap :=
  if (len procs =? 0)%nat then (nil_slice, h)
  else
    let '(sorted, h1) := make (len procs) h in
    let h2 := copy sorted procs h1 in
    let h3 := SliceStable sorted less h2 in
    if (limit <? len sorted)%nat then (reslice sorted limit, h3)
    else (sorted, h3).

End Slices.

Import Slices.

(** ** The four orderings of [GetStats] (lines 206-232) *)

Definition less_cpu (p1 p2 : ProcessInfo) : bool :=
  if negb (PrimFloat.eqb (CPU p1) (CPU p2)) then PrimFloat.ltb (CPU p2) (CPU p1)
  else PID p1 <? PID p2.

Definition less_mem (p1 p2 : ProcessInfo) : bool :=
  if negb (Mem p1 =? Mem p2) then Mem p2 <? Mem p1
  else PID p1 <? PID p2.

Definition less_disk (p1 p2 : ProcessInfo) : bool :=
  if negb (DiskRate p1 =? DiskRate p2) then DiskRate p2 <? DiskRate p1
  else PID p1 <? PID p2.

Definition less_net (p1 p2 : ProcessInfo) : bool :=
  if negb (NetConns p1 =? NetConns p2) then NetConns p2 <? NetConns p1
  else PID p1 <? PID p2.

Definition top_limit : nat := 5.

Record TopLists := {
  top_cpu : list ProcessInfo;
  top_mem : list ProcessInfo;
  top_disk : list ProcessInfo;
  top_net : list ProcessInfo
}.

(** "Sort and slice": the four calls in sequence on one heap, all on the
    same [procInfos]. *)
Definition rank_all (procInfos : slice) (h : heap)
    : (slice * slice * slice * slice) * heap :=
  let '(c, h1) := getTop procInfos less_cpu top_limit h in
  let '(m, h2) := getTop procInfos less_mem top_limit h1 in
  let '(d, h3) := getTop procInfos less_disk top_limit h2 in
  let '(n, h4) := getTop procInfos less_net top_limit h3 in
  ((c, m, d, n), h4).

(** The four lists as the caller of [GetStats] reads them once it returns:
    [procInfos] is the only array when the ranking starts. *)
Definition sort_and_slice (procInfos : list ProcessInfo) : TopLists :=
  let ps := match procInfos with
            | [] => nil_slice
            | _ => {| s_arr := Some 1%positive; s_len := length procInfos |}
            end in
  let h0 : heap := match procInfos with [] => ∅ | _ => {[ 1%positive := procInfos ]} end in
  let '((c, m, d, n), h') := rank_all ps h0 in
  {| top_cpu := contents h' c; top_mem := contents h' m;
     top_disk := contents h' d; top_net := contents h' n |}.

(** ** [GetStats] (lines 69-236) *)

(** Lines 86-108: the disk section.  [strings.HasPrefix(p.Device, "/dev/loop")]
    skips the loop devices; a mount whose [disk.Usage] fails adds nothing. *)
Definition is_loop_device (p : PartitionStat) : bool :=
  String.prefix "/dev/loop" (Device p).

Definition disk_step (env : Provider) (disks : list DiskInfo) (p : PartitionStat)
    : list DiskInfo :=
  if is_loop_device p then disks
  else
    match disk_Usage env (Mountpoint p) with
    | Some u =>
        disks ++ [ {| Path := Mountpoint p; Total := u_Total u; Used := u_Used u;
                      Free := u_Free u; UsedPercent := u_UsedPercent u |} ]
    | None => disks
    end.

Definition disk_section (env : Provider) : list DiskInfo :=
  match disk_Partitions env with
  | Some parts => fold_left (disk_step env) parts []
  | None => []
  end.

(** Lines 130-134: the elapsed time in seconds, floored to one second when
    it is not positive. *)
Definition elapsed (lastTime now : Time) : float :=
  let duration := Seconds (Sub now lastTime) in
  if PrimFloat.leb duration 0%float then 1%float else duration.

(** Lines 168-173: the disk rate.  Under its guard the [uint64] difference
    does not wrap. *)
Definition disk_rate (P : Target) (duration : float)
    (last : option ProcessInfo) (diskIO : Z) : Z :=
  match last with
  | Some last =>
      if DiskIO last <=? diskIO
      then uint64_of_float P
             (PrimFloat.div (float64_of_uint64 (diskIO - DiskIO last)) duration)
      else 0
  | None => 0
  end.

(** Lines 149-186: the sample of one process, from its handle. *)
Definition sample (P : Target) (env : Provider) (duration : float)
    (last : option ProcessInfo) (pid : Z) (proc : Process) : ProcessInfo :=
  let name := default ""%string (proc_Name env proc) in
  let cpuVal := default 0%float (proc_CPUPercent env proc) in
  let memUsage := match proc_MemoryInfo env proc with
                  | Some memInfo => RSS memInfo
                  | None => 0
                  end in
  let diskIO := match proc_IOCounters env proc with
                | Some io => wrap64 (ReadBytes io + WriteBytes io)
                | None => 0
                end in
  let diskRate := disk_rate P duration last diskIO in
  let netConns := Z.of_nat (length (default [] (proc_Connections env proc))) in
  {| PID := pid; Name := name; CPU := cpuVal; Mem := memUsage;
     DiskIO := diskIO; DiskRate := diskRate; NetConns := netConns |}.

(** The state of the loop over [pids] (lines 136-189). *)
Record PollState := {
  ps_procs : gmap Z Process;
  ps_lastStats : gmap Z ProcessInfo;
  ps_procInfos : list ProcessInfo
}.

(** Lines 137-147: the cached handle, or a new one that is cached; [None]
    is the [continue]. *)
Definition acquire (env : Provider) (cache : gmap Z Process) (pid : Z)
    : option (Process * gmap Z Process) :=
  match cache !! pid with
  | Some existing => Some (existing, cache)
  | None =>
      match process_NewProcess env pid with
      | Some newProc => Some (newProc, <[pid := newProc]> cache)
      | None => None
      end
  end.

Definition poll_step (P : Target) (env : Provider) (duration : float)
    (st : PollState) (pid : Z) : PollState :=
  match acquire env (ps_procs st) pid with
  | None => st
  | Some (proc, cache) =>
      let info := sample P env duration (ps_lastStats st !! pid) pid proc in
      {| ps_procs := cache;
         ps_lastStats := <[pid := info]> (ps_lastStats st);
         ps_procInfos := ps_procInfos st ++ [info] |}
  end.

Definition poll_loop (P : Target) (env : Provider) (duration : float)
    (pids : list Z) (st : PollState) : PollState :=
  fold_left (poll_step P env duration) pids st.

(** Lines 193-203: every cached handle whose PID is not active goes, with
    its sample.  The Go loop ranges over [m.procs]; the order is
    immaterial, the keys are taken in the order of [map_to_list]. *)
Definition cleanup_step (activePids : gset Z)
    (caches : gmap Z Process * gmap Z ProcessInfo) (pid : Z)
    : gmap Z Process * gmap Z ProcessInfo :=
  if decide (pid ∈ activePids) then caches
  else (delete pid caches.1, delete pid caches.2).

Definition cleanup (pids : list Z) (ps : gmap Z Process) (ls : gmap Z ProcessInfo)
    : gmap Z Process * gmap Z ProcessInfo :=
  let activePids : gset Z := list_to_set pids in
  fold_left (cleanup_step activePids) (map_to_list ps).*1 (ps, ls).

(** The loop starts on the two caches of the monitor, with
    [var procInfos []ProcessInfo]. *)
Definition poll_start (m : Monitor) : PollState :=
  {| ps_procs := procs m; ps_lastStats := lastStats m; ps_procInfos := [] |}.

(** Go's [error]: [None] is [nil]. *)
Definition error := option string.

Definition GetStats (P : Target) (m : Monitor) (env : Provider)
    : (SystemStats * error) * Monitor :=
  (* System CPU *)
  let cpuUsage := match cpu_Percent env with
                  | Some (c :: _) => c
                  | _ => 0%float
                  end in
  (* Memory *)
  let '(memTotal, memUsed, memFree) :=
    match mem_VirtualMemory env with
    | Some vm => (vm_Total vm, vm_Used vm, vm_Free vm)
    | None => (0, 0, 0)
    end in
  (* Disks *)
  let disks := disk_section env in
  (* Host *)
  let '(uptime, hostname, os, platform) :=
    match host_Info env with
    | Some i => (i_Uptime i, i_Hostname i, i_OS i, i_Platform i)
    | None => (0, ""%string, ""%string, ""%string)
    end in
  (* Net *)
  let '(netSent, netRecv) :=
    match net_IOCounters env with
    | Some (n :: _) => (BytesSent n, BytesRecv n)
    | _ => (0, 0)
    end in
  (* Processes *)
  let '(tops, m') :=
    match process_Pids env with
    | Some pids =>
        let now := time_Now env in
        let duration := elapsed (lastTime m) now in
        let st := poll_loop P env duration pids (poll_start m) in
        let '(ps, ls) := cleanup pids (ps_procs st) (ps_lastStats st) in
        (sort_and_slice (ps_procInfos st),
         {| procs := ps; lastStats := ls; lastTime := now |})
    | None =>
        ({| top_cpu := []; top_mem := []; top_disk := []; top_net := [] |}, m)
    end in
  ({| CPUUsage := cpuUsage;
      MemoryTotal := memTotal; MemoryUsed := memUsed; MemoryFree := memFree;
      Disks := disks;
      Uptime := uptime; Hostname := hostname; OS := os; Platform := platform;
      NetSent := netSent; NetRecv := netRecv;
      TopCPU := top_cpu tops; TopMem := top_mem tops;
      TopDisk := top_disk tops; TopNet := top_net tops |},
   None, m').

(** The engine states the program can be in: created by [NewMonitor],
    then polled any number of times. *)
Inductive reachable (P : Target) : Monitor -> Prop :=
| reach_new now : reachable P (NewMonitor now)
| reach_poll m env : reachable P m -> reachable P (GetStats P m env).2.

(** * Facts about binary64 arithmetic *)

Module FloatFacts.

(** A float that is a number, of sign [s] unless it is a zero. *)
Definition signed (s : bool) (f : spec_float) : Prop :=
  match f with
  | S754_nan => False
  | S754_zero _ => True
  | S754_infinity s' | S754_finite s' _ _ => s' = s
  end.

Lemma shr_1_nonneg mrs : 0 <= shr_m mrs -> 0 <= shr_m (shr_1 mrs).
Proof.
  destruct mrs as [m r s]; simpl.
  destruct m as [|[p|p|]|p]; simpl; lia.
Qed.

Lemma iter_pos_shr_1_nonneg p : forall mrs,
  0 <= shr_m mrs -> 0 <= shr_m (SpecFloat.iter_pos shr_1 p mrs).
Proof.
  induction p as [p IH|p IH|]; intros mrs Hm; simpl.
  - apply IH, IH, shr_1_nonneg, Hm.
  - apply IH, IH, Hm.
  - apply shr_1_nonneg, Hm.
Qed.

Lemma shr_nonneg mrs e n : 0 <= shr_m mrs -> 0 <= shr_m (shr mrs e n).1.
Proof.
  intros Hm. destruct n; simpl; auto using iter_pos_shr_1_nonneg.
Qed.

Lemma shr_record_of_loc_m m l : shr_m (shr_record_of_loc m l) = m.
Proof. destruct l as [|[]]; reflexivity. Qed.

Lemma shr_fexp_nonneg m e l :
  0 <= m -> 0 <= shr_m (shr_fexp prec emax m e l).1.
Proof.
  intros Hm. unfold shr_fexp. apply shr_nonneg.
  rewrite shr_record_of_loc_m. exact Hm.
Qed.

Lemma round_nearest_even_nonneg m l : 0 <= m -> 0 <= round_nearest_even m l.
Proof.
  intros Hm. destruct l as [|[]]; simpl; try lia.
  destruct (Z.even m); lia.
Qed.

Lemma binary_round_aux_signed s m e l :
  0 <= m -> signed s (binary_round_aux prec emax s m e l).
Proof.
  intros Hm. unfold binary_round_aux.
  pose proof (shr_fexp_nonneg m e l Hm) as H1.
  destruct (shr_fexp prec emax m e l) as [mrs' e']. simpl in H1.
  pose proof (shr_fexp_nonneg _ e' loc_Exact
                (round_nearest_even_nonneg _ (loc_of_shr_record mrs') H1)) as H2.
  destruct (shr_fexp prec emax _ e' loc_Exact) as [mrs'' e'']. simpl in H2.
  destruct (shr_m mrs'') as [|q|q]; simpl; [exact I| |lia].
  destruct (e'' <=? emax - prec); reflexivity.
Qed.

Lemma binary_round_signed s m e : signed s (binary_round prec emax s m e).
Proof.
  unfold binary_round.
  destruct (shl_align m e _) as [mz ez].
  apply binary_round_aux_signed. lia.
Qed.

Lemma binary_normalize_signed z e :
  signed (z <? 0) (binary_normalize prec emax z e false).
Proof.
  destruct z; simpl; [exact I| |]; apply binary_round_signed.
Qed.

Lemma signed_zero_any s s' f : f = S754_zero s' -> signed s f.
Proof. intros ->. exact I. Qed.

(** An integer conversion is a number of the integer's sign. *)
Lemma of_uint63_signed n : signed false (Prim2SF (PrimFloat.of_uint63 n)).
Proof.
  rewrite of_uint63_spec.
  pose proof (binary_normalize_signed (Uint63.to_Z n) 0) as H.
  pose proof (Uint63.to_Z_bounded n) as Hb.
  replace (Uint63.to_Z n <? 0) with false in H by (symmetry; apply Z.ltb_ge; lia).
  exact H.
Qed.

Lemma of_uint63_zero : Prim2SF (PrimFloat.of_uint63 (Uint63.of_Z 0)) = S754_zero false.
Proof. reflexivity. Qed.

Lemma SFopp_signed s f : signed s f -> signed (negb s) (SFopp f).
Proof. destruct f; simpl; auto; intros ->; reflexivity. Qed.

Lemma float64_of_int_signed_nonneg z :
  0 <= z -> signed false (Prim2SF (float64_of_int z)).
Proof.
  intros Hz. unfold float64_of_int.
  replace (z <? 0) with false by (symmetry; apply Z.ltb_ge; lia).
  apply of_uint63_signed.
Qed.

Lemma float64_of_int_signed_nonpos z :
  z <= 0 -> signed true (Prim2SF (float64_of_int z)).
Proof.
  intros Hz. unfold float64_of_int.
  destruct (Z.ltb_spec z 0) as [Hlt|Hge].
  - rewrite opp_spec. apply (SFopp_signed false), of_uint63_signed.
  - assert (z = 0) as -> by lia. rewrite of_uint63_zero. exact I.
Qed.

(** Dividing by a positive finite float keeps the sign. *)
Lemma SFdiv_signed s x m e :
  signed s x -> signed s (SFdiv prec emax x (S754_finite false m e)).
Proof.
  destruct x as [sx|sx| |sx mx ex]; simpl; try easy.
  - intros <-. destruct sx; reflexivity.
  - intros <-.
    destruct (SFdiv_core_binary prec emax (Z.pos mx) ex (Z.pos m) e)
      as [[mz ez] lz] eqn:Hcore.
    replace (xorb sx false) with sx by (destruct sx; reflexivity).
    apply binary_round_aux_signed.
    unfold SFdiv_core_binary in Hcore.
    set (m' := match _ - _ - _ with Z.pos _ => _ | Z0 => _ | Z.neg _ => _ end) in Hcore.
    assert (0 <= m') as Hm'.
    { subst m'. destruct (_ - _ - _) eqn:Hs; try lia.
      apply Z.shiftl_nonneg. lia. }
    pose proof (Z_div_mod m' (Z.pos m) eq_refl) as Hdm.
    destruct (Z.div_eucl m' (Z.pos m)) as [q r].
    injection Hcore as <- _ _. nia.
Qed.

(** Adding two numbers of one sign gives a number of that sign. *)
Lemma SFadd_signed s x y :
  signed s x -> signed s y -> signed s (SFadd prec emax x y).
Proof.
  destruct x as [sx|sx| |sx mx ex], y as [sy|sy| |sy my ey]; simpl; try easy.
  - intros _ _. destruct sx, sy; exact I.
  - intros -> ->. destruct s; reflexivity.
  - intros -> ->.
    set (a := (shl_align mx ex (Z.min ex ey)).1).
    set (b := (shl_align my ey (Z.min ex ey)).1).
    destruct s; simpl; apply binary_round_signed.
Qed.

Lemma float_1e9_finite : Prim2SF float_1e9 = S754_finite false 8388608000000000 (-23).
Proof. reflexivity. Qed.

(** [Seconds] never yields a NaN. *)
Lemma Seconds_not_nan d : Prim2SF (Seconds d) <> S754_nan.
Proof.
  assert (exists s, signed s (Prim2SF (Seconds d))) as [s Hs].
  { unfold Seconds. rewrite add_spec, div_spec, float_1e9_finite.
    destruct (Z.le_ge_cases 0 d) as [Hd|Hd].
    - exists false. apply SFadd_signed; [|apply SFdiv_signed];
        apply float64_of_int_signed_nonneg.
      + apply Z.quot_pos; [lia|reflexivity].
      + apply Z.rem_nonneg; [discriminate|lia].
    - exists true. apply SFadd_signed; [|apply SFdiv_signed];
        apply float64_of_int_signed_nonpos.
      + rewrite <- (Z.opp_involutive d), Z.quot_opp_l by discriminate.
        pose proof (Z.quot_pos (- d) Second ltac:(lia) ltac:(reflexivity)). lia.
      + rewrite <- (Z.opp_involutive d), Z.rem_opp_l by discriminate.
        pose proof (Z.rem_nonneg (- d) Second ltac:(discriminate) ltac:(lia)). lia. }
  intros Hnan. rewrite Hnan in Hs. exact Hs.
Qed.

(** A number that is not [<= 0] is [> 0]. *)
Lemma not_leb_zero_ltb x :
  Prim2SF x <> S754_nan ->
  PrimFloat.leb x 0%float = false -> PrimFloat.ltb 0%float x = true.
Proof.
  rewrite leb_spec, ltb_spec.
  change (Prim2SF 0%float) with (S754_zero false).
  unfold SFleb, SFltb.
  destruct (Prim2SF x) as [s|s| |s m e]; simpl; try easy; destruct s; easy.
Qed.

Lemma SFmul_signed x m e :
  signed false x -> signed false (SFmul prec emax x (S754_finite false m e)).
Proof.
  destruct x as [sx|sx| |sx mx ex]; simpl; try done.
  - intros ->. reflexivity.
  - intros ->. apply binary_round_aux_signed. lia.
Qed.

(** [float64(x)] of an unsigned [x] is a number, and not a negative one. *)
Lemma float64_of_uint64_signed z : signed false (Prim2SF (float64_of_uint64 z)).
Proof.
  unfold float64_of_uint64. rewrite add_spec, mul_spec.
  apply SFadd_signed; [|apply of_uint63_signed].
  change (Prim2SF two32) with (S754_finite false 4503599627370496 (-20)).
  apply SFmul_signed, of_uint63_signed.
Qed.

(** A number that is not negative, divided by a positive one, is not
    negative: it is zero, positive, or (infinity by infinity) not a number. *)
Lemma SFdiv_not_negative x d :
  signed false x ->
  (exists m e, d = S754_finite false m e \/ d = S754_infinity false) ->
  match SFdiv prec emax x d with
  | S754_finite true _ _ | S754_infinity true => False
  | _ => True
  end.
Proof.
  intros Hx (m & e & [-> | ->]).
  - pose proof (SFdiv_signed false x m e Hx) as H.
    destruct (SFdiv prec emax x (S754_finite false m e)) as [s|s| |s m' e'];
      simpl in H; try done; by subst.
  - destruct x as [sx|sx| |sx mx ex]; simpl in *; try done.
    all: by destruct sx.
Qed.

Lemma binary_round_aux_zero_sign s m e l s' :
  binary_round_aux prec emax s m e l = S754_zero s' -> s' = s.
Proof.
  unfold binary_round_aux.
  destruct (shr_fexp prec emax m e l) as [mrs' e'].
  destruct (shr_fexp prec emax _ e' loc_Exact) as [mrs'' e''].
  destruct (shr_m mrs'') as [|q|q]; [|destruct (e'' <=? emax - prec)|];
    intros H; try discriminate H.
  injection H as H. by symmetry.
Qed.

Lemma of_uint63_not_negative_zero n :
  Prim2SF (PrimFloat.of_uint63 n) <> S754_zero true.
Proof.
  rewrite of_uint63_spec.
  pose proof (Uint63.to_Z_bounded n) as Hb.
  destruct (Uint63.to_Z n) as [|p|p]; simpl; [discriminate| |lia].
  unfold binary_round. destruct (shl_align p 0 _) as [mz ez].
  intros H. by apply binary_round_aux_zero_sign in H.
Qed.

(** A [uint64] below 2^32 has no high half: its [float64] is the conversion
    of the integer itself. *)
Lemma float64_of_uint64_small z :
  0 <= z < 2 ^ 32 ->
  float64_of_uint64 z = PrimFloat.of_uint63 (Uint63.of_Z z).
Proof.
  intros Hz. unfold float64_of_uint64.
  rewrite Z.div_small, Z.mod_small by lia.
  set (y := PrimFloat.of_uint63 (Uint63.of_Z z)).
  change (PrimFloat.mul (PrimFloat.of_uint63 (Uint63.of_Z 0)) two32) with 0%float.
  assert (Prim2SF (PrimFloat.add 0 y) = Prim2SF y) as H.
  { rewrite add_spec. change (Prim2SF 0%float) with (S754_zero false).
    pose proof (of_uint63_not_negative_zero (Uint63.of_Z z)) as Hnz. fold y in Hnz.
    destruct (Prim2SF y) as [[|]|s| |s m e]; done. }
  by rewrite <- (SF2Prim_Prim2SF (PrimFloat.add 0 y)), H, SF2Prim_Prim2SF.
Qed.

End FloatFacts.

(** * Facts about the stable sort *)

Module SortFacts.

Section Sift.
Context {A : Type} (less : A -> A -> bool).

(** [a] may stand before [b] in a sorted slice. *)
Definition before (a b : A) : Prop := less b a = false.

Lemma sift_Permutation x r : sift less x r ≡ₚ x :: r.
Proof.
  induction r as [|y r IH]; simpl; [done|].
  destruct (less x y); [|done].
  rewrite IH. apply perm_swap.
Qed.

Lemma fold_sift_Permutation l : forall r,
  fold_left (fun r x => sift less x r) l r ≡ₚ l ++ r.
Proof.
  induction l as [|x l IH]; intros r; simpl; [done|].
  rewrite IH, sift_Permutation. by rewrite Permutation_middle.
Qed.

Lemma stable_sort_Permutation l : stable_sort less l ≡ₚ l.
Proof.
  unfold stable_sort. rewrite <- Permutation_rev, fold_sift_Permutation.
  by rewrite app_nil_r.
Qed.

Lemma stable_sort_length l : length (stable_sort less l) = length l.
Proof. apply Permutation_length, stable_sort_Permutation. Qed.

Lemma stable_sort_nil : stable_sort less [] = [].
Proof. reflexivity. Qed.

(** [less] is a strict weak ordering of the values that satisfy [P]. *)
Record strict_weak (P : A -> Prop) : Prop := {
  sw_asym : forall x y, P x -> P y -> less x y = true -> less y x = false;
  sw_negtrans : forall x y z, P x -> P y -> P z ->
    less x y = false -> less y z = false -> less x z = false
}.

Section Sorted.
Context (P : A -> Prop) (Hsw : strict_weak P).

Lemma sift_sorted x r :
  P x -> Forall P r ->
  StronglySorted (fun y z => less y z = false) r ->
  StronglySorted (fun y z => less y z = false) (sift less x r).
Proof.
  intros Hx. induction r as [|y r IH]; intros HP Hs; simpl.
  { repeat constructor. }
  apply Forall_cons in HP as [Hy HP].
  apply StronglySorted_cons in Hs as [Hyr Hs].
  destruct (less x y) eqn:Hxy.
  - apply StronglySorted_cons. split; [|by apply IH].
    rewrite sift_Permutation. constructor; [|done].
    by apply (sw_asym P Hsw x y).
  - apply StronglySorted_cons. split; [|by apply StronglySorted_cons].
    constructor; [done|].
    rewrite Forall_forall in Hyr, HP |- *. intros z Hz.
    apply (sw_negtrans P Hsw x y z); auto.
Qed.

Lemma fold_sift_sorted l : forall r,
  Forall P l -> Forall P r ->
  StronglySorted (fun y z => less y z = false) r ->
  StronglySorted (fun y z => less y z = false)
    (fold_left (fun r x => sift less x r) l r).
Proof.
  induction l as [|x l IH]; intros r Hl Hr Hs; simpl; [done|].
  apply Forall_cons in Hl as [Hx Hl].
  apply IH; [done| |by apply sift_sorted].
  rewrite sift_Permutation. by constructor.
Qed.

Lemma StronglySorted_rev (R : relation A) l :
  StronglySorted R l -> StronglySorted (flip R) (rev l).
Proof.
  induction 1 as [|x l Hs IH Hx]; simpl; [constructor|].
  apply StronglySorted_app_2; [|done|repeat constructor].
  intros x1 x2 Hx1 Hx2. apply list_elem_of_singleton in Hx2 as ->.
  rewrite Forall_forall in Hx. apply Hx.
  by apply list_elem_of_In, in_rev, list_elem_of_In.
Qed.

(** On values ordered by [less], the result is sorted. *)
Lemma stable_sort_sorted l :
  Forall P l -> StronglySorted before (stable_sort less l).
Proof.
  intros Hl. unfold stable_sort.
  apply (StronglySorted_rev (fun y z => less y z = false)).
  apply fold_sift_sorted; [done|constructor|constructor].
Qed.
End Sorted.

(** Stability: the values that [less] does not tell apart from [z] keep the
    order they came in. *)
Definition tied (z y : A) : bool := negb (less z y) && negb (less y z).

Lemma sift_tied (P : A -> Prop) (Hsw : strict_weak P) z x r :
  P z -> P x -> Forall P r ->
  filter (fun y => tied z y = true) (sift less x r) =
    if tied z x then x :: filter (fun y => tied z y = true) r
    else filter (fun y => tied z y = true) r.
Proof.
  intros Hz Hx. induction r as [|y r IH]; intros Hr; simpl.
  { rewrite filter_cons, filter_nil. destruct (tied z x) eqn:E.
    - by rewrite decide_True.
    - rewrite decide_False; [done|]. by rewrite not_true_iff_false. }
  apply Forall_cons in Hr as [Hy Hr].
  destruct (less x y) eqn:Hxy.
  - rewrite !filter_cons, IH by done.
    destruct (tied z x) eqn:Ex; [|reflexivity].
    assert (tied z y = false) as Ey.
    { apply not_true_iff_false. intros Ey. unfold tied in Ex, Ey.
      apply andb_true_iff in Ex as [Ezx Exz], Ey as [Ezy Eyz].
      apply negb_true_iff in Ezx, Exz, Ezy, Eyz.
      pose proof (sw_negtrans P Hsw x z y Hx Hz Hy Exz Ezy). congruence. }
    destruct (decide (tied z y = true)); [congruence|reflexivity].
  - rewrite (filter_cons _ x).
    destruct (tied z x) eqn:Ex.
    + by rewrite decide_True.
    + rewrite decide_False; [done|]. by rewrite not_true_iff_false.
Qed.

Lemma fold_sift_tied (P : A -> Prop) (Hsw : strict_weak P) z l : forall r,
  P z -> Forall P l -> Forall P r ->
  filter (fun y => tied z y = true) (fold_left (fun r x => sift less x r) l r) =
    rev (filter (fun y => tied z y = true) l) ++ filter (fun y => tied z y = true) r.
Proof.
  induction l as [|x l IH]; intros r Hz Hl Hr; simpl; [done|].
  apply Forall_cons in Hl as [Hx Hl].
  rewrite IH; [|done|done|by rewrite sift_Permutation; constructor].
  rewrite (sift_tied P Hsw) by done. rewrite filter_cons.
  destruct (tied z x) eqn:Ex.
  - rewrite decide_True by done. simpl. by rewrite <- app_assoc.
  - rewrite decide_False; [done|]. by rewrite not_true_iff_false.
Qed.

Lemma filter_rev (Q : A -> Prop) `{!forall x, Decision (Q x)} l :
  filter Q (rev l) = rev (filter Q l).
Proof.
  induction l as [|x l IH]; simpl; [done|].
  rewrite filter_app, IH, !filter_cons, filter_nil.
  destruct (decide (Q x)); simpl; [done|by rewrite app_nil_r].
Qed.

Lemma stable_sort_stable (P : A -> Prop) (Hsw : strict_weak P) z l :
  P z -> Forall P l ->
  filter (fun y => tied z y = true) (stable_sort less l) =
    filter (fun y => tied z y = true) l.
Proof.
  intros Hz Hl. unfold stable_sort.
  rewrite filter_rev, (fold_sift_tied P Hsw) by (done || constructor).
  by rewrite filter_nil, app_nil_r, rev_involutive.
Qed.

(** Under a strict weak ordering the stable sort of a list is unique: two
    sorted rearrangements that keep tied values in the order they came in
    are the same list. *)
Lemma sorted_stable_unique (P : A -> Prop) (Hsw : strict_weak P) l1 : forall l2,
  Forall P l1 -> l1 ≡ₚ l2 ->
  StronglySorted before l1 -> StronglySorted before l2 ->
  (forall z, P z -> filter (fun y => tied z y = true) l1 =
                    filter (fun y => tied z y = true) l2) ->
  l1 = l2.
Proof.
  induction l1 as [|a l1 IH]; intros l2 HP Hperm Hs1 Hs2 Hf.
  { by apply Permutation_nil_l in Hperm. }
  destruct l2 as [|b l2]; [by apply Permutation_nil_r in Hperm|].
  apply Forall_cons in HP as [Ha HP].
  apply StronglySorted_inv in Hs1 as [Hs1 Ha1].
  apply StronglySorted_inv in Hs2 as [Hs2 Hb2].
  rewrite Forall_forall in Ha1, Hb2.
  assert (less a a = false) as Haa.
  { destruct (less a a) eqn:E; [|done]. by rewrite (sw_asym _ Hsw a a) in E. }
  assert (b ∈ a :: l1) as Hb by (rewrite Hperm; left).
  assert (a ∈ b :: l2) as Ha' by (rewrite <- Hperm; left).
  assert (less b a = false) as Hba.
  { apply elem_of_cons in Hb as [->|Hb]; [done|]. by apply Ha1. }
  assert (less a b = false) as Hab.
  { apply elem_of_cons in Ha' as [->|Ha']; [done|]. by apply Hb2. }
  assert (a = b) as <-.
  { pose proof (Hf a Ha) as H. rewrite !filter_cons in H.
    rewrite decide_True in H by (unfold tied; by rewrite Haa).
    rewrite decide_True in H by (unfold tied; by rewrite Hab, Hba).
    by injection H. }
  f_equal. apply IH; [done|by apply Permutation_cons_inv in Hperm|done..|].
  intros z Hz. pose proof (Hf z Hz) as H. rewrite !filter_cons in H.
  destruct (decide (tied z a = true)); [by injection H|done].
Qed.

(** So every sort that meets the contract of [sort.SliceStable] returns
    what [stable_sort] returns, whatever its algorithm. *)
Lemma stable_sort_unique (P : A -> Prop) (Hsw : strict_weak P) l l' :
  Forall P l -> l' ≡ₚ l ->
  StronglySorted before l' ->
  (forall z, P z -> filter (fun y => tied z y = true) l' =
                    filter (fun y => tied z y = true) l) ->
  l' = stable_sort less l.
Proof.
  intros HP Hperm Hs Hf.
  apply (sorted_stable_unique P Hsw).
  - by rewrite Hperm.
  - by rewrite stable_sort_Permutation.
  - done.
  - by apply (stable_sort_sorted P).
  - intros z Hz. by rewrite Hf, (stable_sort_stable P).
Qed.

Lemma StronglySorted_take (R : relation A) n l :
  StronglySorted R l -> StronglySorted R (take n l).
Proof.
  intros Hs. rewrite <- (take_drop n l) in Hs.
  by apply StronglySorted_app_1_l in Hs.
Qed.

Lemma StronglySorted_lookup (R : relation A) l i j a b :
  StronglySorted R l -> (i < j)%nat -> l !! i = Some a -> l !! j = Some b -> R a b.
Proof.
  intros Hs. revert i j. induction Hs as [|x l Hs IH Hx]; intros i j Hij Hi Hj.
  { by rewrite lookup_nil in Hi. }
  destruct j as [|j]; [lia|]. simpl in Hj.
  destruct i as [|i]; simpl in Hi.
  - injection Hi as <-. rewrite Forall_forall in Hx.
    eapply Hx, list_elem_of_lookup_2, Hj.
  - apply (IH i j); [lia|done..].
Qed.
End Sift.

End SortFacts.

(** * Facts about [getTop] on the heap *)

Module SliceFacts.
Import SortFacts.

(** What [getTop] computes, on the elements: the head of the sorted list. *)
Definition ranking (less : ProcessInfo -> ProcessInfo -> bool) (limit : nat)
    (l : list ProcessInfo) : list ProcessInfo :=
  take limit (stable_sort less l).

(** [h'] keeps every array of [h] as it is. *)
Definition preserves (h h' : heap) : Prop :=
  forall l a, h !! l = Some a -> h' !! l = Some a.

Lemma preserves_refl h : preserves h h.
Proof. by intros l a. Qed.

Lemma preserves_trans h1 h2 h3 :
  preserves h1 h2 -> preserves h2 h3 -> preserves h1 h3.
Proof. intros H12 H23 l a Hl. by apply H23, H12. Qed.

Lemma preserves_valid h h' s : preserves h h' -> valid h s -> valid h' s.
Proof.
  unfold valid. intros Hp. destruct (s_arr s); [|done].
  intros (a & Ha & Hlen). exists a. split; [by apply Hp|done].
Qed.

Lemma preserves_contents h h' s :
  preserves h h' -> valid h s -> contents h' s = contents h s.
Proof.
  unfold valid, contents, backing. intros Hp. destruct (s_arr s); [|done].
  intros (a & Ha & Hlen). by rewrite (Hp _ _ Ha), Ha.
Qed.

Lemma contents_nil_slice h : contents h nil_slice = [].
Proof. reflexivity. Qed.

Lemma valid_length h s : valid h s -> length (contents h s) = len s.
Proof.
  unfold valid, contents, backing, len. destruct (s_arr s) as [l|].
  - intros (a & -> & Hlen). simpl. by rewrite length_take_le.
  - intros ->. reflexivity.
Qed.

(** [getTop] returns the ranking of what its argument shows, in a slice
    of its own, and leaves every array it was given as it found it. *)
Lemma getTop_spec procs less limit h r h' :
  valid h procs ->
  getTop procs less limit h = (r, h') ->
  contents h' r = ranking less limit (contents h procs)
  /\ preserves h h' /\ valid h' r.
Proof.
  intros Hv. pose proof (valid_length h procs Hv) as Hlen.
  unfold getTop.
  destruct (Nat.eqb_spec (len procs) 0) as [H0|Hn0].
  { intros [= <- <-]. split; [|split; [apply preserves_refl|reflexivity]].
    rewrite H0 in Hlen. apply nil_length_inv in Hlen.
    rewrite Hlen, contents_nil_slice. unfold ranking.
    by rewrite stable_sort_nil, take_nil. }
  unfold make. set (l := fresh (dom h)). set (n := len procs) in *.
  assert (h !! l = None) as Hfresh by (apply not_elem_of_dom, is_fresh).
  set (h1 := <[l := replicate n zero_ProcessInfo]> h).
  assert (preserves h h1) as Hp1.
  { intros l' a Ha. unfold h1. rewrite lookup_insert_ne; [done|congruence]. }
  set (sorted := {| s_arr := Some l; s_len := n |}).
  set (src := contents h procs) in *.
  assert (copy sorted procs h1 = <[l := src]> h) as Hcopy.
  { unfold copy; simpl. fold (len procs). fold n. rewrite Nat.min_id.
    rewrite (preserves_contents h h1 procs Hp1 Hv). fold src.
    unfold backing; simpl. unfold h1 at 1. rewrite lookup_insert_eq; simpl.
    rewrite drop_replicate, Nat.sub_diag; simpl. rewrite app_nil_r.
    rewrite take_ge by lia. unfold h1. apply insert_insert_eq. }
  rewrite Hcopy.
  assert (SliceStable sorted less (<[l := src]> h) = <[l := stable_sort less src]> h)
    as Hsort.
  { unfold SliceStable, contents, backing; simpl. rewrite lookup_insert_eq; simpl.
    rewrite take_ge, drop_ge, app_nil_r by lia. apply insert_insert_eq. }
  rewrite Hsort. clear Hcopy Hsort h1 Hp1.
  assert (preserves h (<[l := stable_sort less src]> h)) as Hp.
  { intros l' a Ha. rewrite lookup_insert_ne; [done|congruence]. }
  pose proof (stable_sort_length less src) as Hsl.
  simpl. destruct (Nat.ltb_spec limit n) as [Hlt|Hge]; intros [= <- <-].
  - split; [|split; [done|]].
    + unfold contents, backing, reslice; simpl. by rewrite lookup_insert_eq.
    + unfold valid, reslice; simpl. eexists. rewrite lookup_insert_eq.
      split; [done|lia].
  - split; [|split; [done|]].
    + unfold contents, backing, ranking; simpl. rewrite lookup_insert_eq; simpl.
      by rewrite !take_ge by lia.
    + unfold valid; simpl. eexists. rewrite lookup_insert_eq.
      split; [done|lia].
Qed.

(** The four rankings of one poll, each computed from the same samples. *)
Lemma rank_all_spec procInfos h c m d n h' :
  valid h procInfos ->
  rank_all procInfos h = ((c, m, d, n), h') ->
  let l := contents h procInfos in
  contents h' c = ranking less_cpu top_limit l
  /\ contents h' m = ranking less_mem top_limit l
  /\ contents h' d = ranking less_disk top_limit l
  /\ contents h' n = ranking less_net top_limit l
  /\ preserves h h'.
Proof.
  intros Hv. unfold rank_all.
  destruct (getTop procInfos less_cpu top_limit h) as [c' h1] eqn:E1.
  destruct (getTop procInfos less_mem top_limit h1) as [m' h2] eqn:E2.
  destruct (getTop procInfos less_disk top_limit h2) as [d' h3] eqn:E3.
  destruct (getTop procInfos less_net top_limit h3) as [n' h4] eqn:E4.
  intros [= <- <- <- <- <-].
  destruct (getTop_spec _ _ _ _ _ _ Hv E1) as (C1 & P1 & V1).
  pose proof (preserves_valid _ _ _ P1 Hv) as Hv1.
  destruct (getTop_spec _ _ _ _ _ _ Hv1 E2) as (C2 & P2 & V2).
  pose proof (preserves_valid _ _ _ P2 Hv1) as Hv2.
  destruct (getTop_spec _ _ _ _ _ _ Hv2 E3) as (C3 & P3 & V3).
  pose proof (preserves_valid _ _ _ P3 Hv2) as Hv3.
  destruct (getTop_spec _ _ _ _ _ _ Hv3 E4) as (C4 & P4 & V4).
  pose proof (preserves_contents _ _ _ P1 Hv) as K1.
  pose proof (preserves_contents _ _ _ P2 Hv1) as K2.
  pose proof (preserves_contents _ _ _ P3 Hv2) as K3.
  simpl. repeat split.
  - rewrite (preserves_contents h3 h4 c'), (preserves_contents h2 h3 c'),
      (preserves_contents h1 h2 c'); eauto using preserves_valid.
  - rewrite (preserves_contents h3 h4 m'), (preserves_contents h2 h3 m'), C2, K1;
      eauto using preserves_valid.
  - rewrite (preserves_contents h3 h4 d'), C3, K2, K1; eauto using preserves_valid.
  - by rewrite C4, K3, K2, K1.
  - eauto using preserves_trans.
Qed.

(** The four lists of a snapshot are the four rankings of the samples. *)
Lemma sort_and_slice_ranking procInfos :
  sort_and_slice procInfos =
    {| top_cpu := ranking less_cpu top_limit procInfos;
       top_mem := ranking less_mem top_limit procInfos;
       top_disk := ranking less_disk top_limit procInfos;
       top_net := ranking less_net top_limit procInfos |}.
Proof.
  unfold sort_and_slice.
  set (ps := match procInfos with [] => nil_slice | _ => _ end).
  set (h0 := match procInfos with [] => ∅ | _ => _ end).
  assert (valid h0 ps /\ contents h0 ps = procInfos) as [Hv Hc].
  { subst ps h0. destruct procInfos as [|p l]; [done|]. split.
    - eexists. rewrite lookup_singleton_eq. split; [done|simpl; lia].
    - unfold contents, backing; simpl. rewrite lookup_singleton_eq; simpl.
      by rewrite take_ge. }
  destruct (rank_all ps h0) as [[[[c m] d] n] h'] eqn:E.
  destruct (rank_all_spec _ _ _ _ _ _ _ Hv E) as (-> & -> & -> & -> & _).
  by rewrite Hc.
Qed.

End SliceFacts.

(** * The four orderings are strict weak orderings *)

Module OrderFacts.
Import SortFacts.

(** A float that is not a NaN. *)
Definition is_number (f : float) : Prop := PrimFloat.is_nan f = false.

(** The place of a number on a line of integer triples, compared
    lexicographically: sign class, then exponent, then mantissa. *)
Definition key (f : spec_float) : Z * Z * Z :=
  match f with
  | S754_infinity true => (-2, 0, 0)
  | S754_finite true m e => (-1, - e, - Z.pos m)
  | S754_zero _ | S754_nan => (0, 0, 0)
  | S754_finite false m e => (1, e, Z.pos m)
  | S754_infinity false => (2, 0, 0)
  end.

Definition key_lt (k1 k2 : Z * Z * Z) : Prop :=
  let '(a1, b1, c1) := k1 in
  let '(a2, b2, c2) := k2 in
  a1 < a2 \/ (a1 = a2 /\ (b1 < b2 \/ (b1 = b2 /\ c1 < c2))).

Lemma compare_opp_opp a b : (- a ?= - b) = CompOpp (a ?= b).
Proof. rewrite Z.compare_opp. apply Z.compare_antisym. Qed.

Lemma SFcompare_key x y :
  x <> S754_nan -> y <> S754_nan ->
  exists c, SFcompare x y = Some c
    /\ (c = Lt <-> key_lt (key x) (key y))
    /\ (c = Eq <-> key x = key y).
Proof.
  intros Hx Hy.
  destruct x as [sx|sx| |sx mx ex], y as [sy|sy| |sy my ey]; try congruence;
    simpl; try (destruct sx); try (destruct sy);
    try (eexists; split; [reflexivity|]; simpl; split; split;
         (congruence || lia)).
  - (* both negative *)
    eexists; split; [reflexivity|].
    pose proof (Z.compare_spec ex ey) as He.
    pose proof (Pos.compare_spec mx my) as Hm.
    change (Pos.compare_cont Eq mx my) with (Pos.compare mx my).
    destruct He, Hm; simpl; split; split;
      try solve [congruence | lia | intros [= ? ?]; lia].
  - (* both positive *)
    eexists; split; [reflexivity|].
    pose proof (Z.compare_spec ex ey) as He.
    pose proof (Pos.compare_spec mx my) as Hm.
    change (Pos.compare_cont Eq mx my) with (Pos.compare mx my).
    destruct He, Hm; simpl; split; split;
      try solve [congruence | lia | intros [= ? ?]; lia].
Qed.

Lemma is_number_spec f : is_number f <-> Prim2SF f <> S754_nan.
Proof.
  unfold is_number, PrimFloat.is_nan. rewrite FloatAxioms.eqb_spec. split.
  - intros H Hn. rewrite Hn in H. discriminate.
  - intros Hn. destruct (SFcompare_key _ _ Hn Hn) as (c & Hc & _ & Heq).
    unfold SFeqb. rewrite Hc.
    assert (c = Eq) as -> by (by apply Heq). reflexivity.
Qed.

Lemma float_ltb_key x y :
  is_number x -> is_number y ->
  (PrimFloat.ltb x y = true <-> key_lt (key (Prim2SF x)) (key (Prim2SF y))).
Proof.
  rewrite !is_number_spec. intros Hx Hy. rewrite ltb_spec. unfold SFltb.
  destruct (SFcompare_key _ _ Hx Hy) as (c & -> & Hlt & _).
  rewrite <- Hlt. destruct c; split; congruence.
Qed.

Lemma float_eqb_key x y :
  is_number x -> is_number y ->
  (PrimFloat.eqb x y = true <-> key (Prim2SF x) = key (Prim2SF y)).
Proof.
  rewrite !is_number_spec. intros Hx Hy. rewrite FloatAxioms.eqb_spec. unfold SFeqb.
  destruct (SFcompare_key _ _ Hx Hy) as (c & -> & _ & Heq).
  rewrite <- Heq. destruct c; split; congruence.
Qed.

Lemma float_leb_key x y :
  is_number x -> is_number y ->
  (PrimFloat.leb x y = true <->
   key_lt (key (Prim2SF x)) (key (Prim2SF y)) \/ key (Prim2SF x) = key (Prim2SF y)).
Proof.
  rewrite !is_number_spec. intros Hx Hy. rewrite leb_spec. unfold SFleb.
  destruct (SFcompare_key _ _ Hx Hy) as (c & -> & Hlt & Heq).
  rewrite <- Hlt, <- Heq. destruct c; split; (congruence || tauto || (intros [?|?]; congruence)).
Qed.

(** [less_cpu] in terms of keys. *)
Lemma less_cpu_key p1 p2 :
  is_number (CPU p1) -> is_number (CPU p2) ->
  (less_cpu p1 p2 = true <->
   key_lt (key (Prim2SF (CPU p2))) (key (Prim2SF (CPU p1)))
   \/ (key (Prim2SF (CPU p1)) = key (Prim2SF (CPU p2)) /\ PID p1 < PID p2)).
Proof.
  intros H1 H2. unfold less_cpu.
  pose proof (float_eqb_key _ _ H1 H2) as He.
  pose proof (float_ltb_key _ _ H2 H1) as Hl.
  destruct (PrimFloat.eqb (CPU p1) (CPU p2)); simpl.
  - rewrite Z.ltb_lt. destruct He as [He _]. specialize (He eq_refl).
    rewrite He. split; [tauto|]. intros [Hk|[_ ?]]; [|done].
    destruct (key (Prim2SF (CPU p2))) as [[a b] c]. simpl in Hk. lia.
  - rewrite Hl. split; [tauto|]. intros [?|[Hk _]]; [done|].
    apply He in Hk. discriminate.
Qed.

Ltac key_lia :=
  repeat match goal with
    | |- context [key ?f] => destruct (key f) as [[? ?] ?]
    | H : context [key ?f] |- _ => destruct (key f) as [[? ?] ?]
    end;
  simpl in *;
  repeat match goal with
    | H : (_, _) = (_, _) -> _ |- _ => idtac
    | H : context [(_, _) = (_, _)] |- _ => rewrite !pair_equal_spec in H
    | |- context [(_, _) = (_, _)] => rewrite !pair_equal_spec
    end;
  lia.

Lemma bool_false_iff (b : bool) (Q : Prop) : (b = true <-> Q) -> (b = false <-> ~ Q).
Proof.
  destruct b; intros [H1 H2]; split; intros H; try congruence.
  - exfalso. apply H, H1. reflexivity.
  - intros HQ. specialize (H2 HQ). discriminate.
Qed.

Lemma less_cpu_strict_weak : strict_weak less_cpu (fun p => is_number (CPU p)).
Proof.
  split.
  - intros x y Hx Hy. rewrite (bool_false_iff _ _ (less_cpu_key y x Hy Hx)).
    rewrite (less_cpu_key x y Hx Hy). key_lia.
  - intros x y z Hx Hy Hz.
    rewrite (bool_false_iff _ _ (less_cpu_key x y Hx Hy)).
    rewrite (bool_false_iff _ _ (less_cpu_key y z Hy Hz)).
    rewrite (bool_false_iff _ _ (less_cpu_key x z Hx Hz)). key_lia.
Qed.

(** The integer orderings: by comparison of the two keys. *)
Lemma less_int_spec (f : ProcessInfo -> Z) p1 p2 :
  (if negb (f p1 =? f p2) then f p2 <? f p1 else PID p1 <? PID p2) = true
  <-> f p2 < f p1 \/ (f p1 = f p2 /\ PID p1 < PID p2).
Proof.
  destruct (Z.eqb_spec (f p1) (f p2)); simpl; rewrite Z.ltb_lt; lia.
Qed.

Lemma less_int_strict_weak (f : ProcessInfo -> Z) :
  strict_weak
    (fun p1 p2 => if negb (f p1 =? f p2) then f p2 <? f p1 else PID p1 <? PID p2)
    (fun _ => True).
Proof.
  split.
  - intros x y _ _. rewrite (bool_false_iff _ _ (less_int_spec f y x)).
    rewrite less_int_spec. lia.
  - intros x y z _ _ _.
    rewrite !(bool_false_iff _ _ (less_int_spec f _ _)). lia.
Qed.

Lemma less_mem_strict_weak : strict_weak less_mem (fun _ => True).
Proof. apply (less_int_strict_weak Mem). Qed.
Lemma less_disk_strict_weak : strict_weak less_disk (fun _ => True).
Proof. apply (less_int_strict_weak DiskRate). Qed.
Lemma less_net_strict_weak : strict_weak less_net (fun _ => True).
Proof. apply (less_int_strict_weak NetConns). Qed.

End OrderFacts.

(** * Facts about one poll *)

Module PollFacts.

(** The sample cache never knows a PID the handle cache does not. *)
Definition cache_inv (ps : gmap Z Process) (ls : gmap Z ProcessInfo) : Prop :=
  forall pid, is_Some (ls !! pid) -> is_Some (ps !! pid).

Lemma acquire_lookup env cache pid proc cache' :
  acquire env cache pid = Some (proc, cache') ->
  cache' !! pid = Some proc
  /\ forall pid', is_Some (cache !! pid') -> is_Some (cache' !! pid').
Proof.
  unfold acquire. destruct (cache !! pid) as [existing|] eqn:Hc.
  - intros [= <- <-]. auto.
  - destruct (process_NewProcess env pid) as [newProc|]; [|discriminate].
    intros [= <- <-]. rewrite lookup_insert_eq. split; [done|].
    intros pid' Hp. destruct (decide (pid = pid')) as [->|Hne].
    + by rewrite lookup_insert_eq.
    + by rewrite lookup_insert_ne.
Qed.

Lemma poll_step_inv P env d st pid :
  cache_inv (ps_procs st) (ps_lastStats st) ->
  cache_inv (ps_procs (poll_step P env d st pid))
            (ps_lastStats (poll_step P env d st pid)).
Proof.
  intros Hinv. unfold poll_step.
  destruct (acquire env (ps_procs st) pid) as [[proc cache]|] eqn:Ha; [|done].
  apply acquire_lookup in Ha as [Hpid Hmono]. simpl.
  intros pid' Hs. destruct (decide (pid = pid')) as [<-|Hne].
  - by rewrite Hpid.
  - rewrite lookup_insert_ne in Hs by done. auto.
Qed.

Lemma poll_loop_inv P env d pids : forall st,
  cache_inv (ps_procs st) (ps_lastStats st) ->
  cache_inv (ps_procs (poll_loop P env d pids st))
            (ps_lastStats (poll_loop P env d pids st)).
Proof.
  induction pids as [|pid pids IH]; intros st Hinv; simpl; [done|].
  apply IH, poll_step_inv, Hinv.
Qed.

(** A PID that the loop has not met yet has its cached sample untouched. *)
Lemma poll_step_lastStats_ne P env d st pid pid' :
  pid <> pid' ->
  ps_lastStats (poll_step P env d st pid) !! pid' = ps_lastStats st !! pid'.
Proof.
  intros Hne. unfold poll_step.
  destruct (acquire env (ps_procs st) pid) as [[proc cache]|]; [|done].
  simpl. by rewrite lookup_insert_ne.
Qed.

Lemma poll_loop_lastStats_notin P env d pids pid' : forall st,
  pid' ∉ pids ->
  ps_lastStats (poll_loop P env d pids st) !! pid' = ps_lastStats st !! pid'.
Proof.
  induction pids as [|pid pids IH]; intros st Hnotin; simpl; [done|].
  apply not_elem_of_cons in Hnotin as [Hne Hnotin].
  rewrite IH by done. by apply poll_step_lastStats_ne.
Qed.

(** The cleanup, entry by entry. *)
Lemma cleanup_fold_lookup (A : gset Z) ks : forall ps ls pid,
  let r := fold_left (cleanup_step A) ks (ps, ls) in
  r.1 !! pid = (if decide (pid ∈ A) then ps !! pid
                else if decide (pid ∈ ks) then None else ps !! pid)
  /\ r.2 !! pid = (if decide (pid ∈ A) then ls !! pid
                   else if decide (pid ∈ ks) then None else ls !! pid).
Proof.
  induction ks as [|k ks IH]; intros ps ls pid; simpl.
  { destruct (decide (pid ∈ A)); [done|].
    destruct (decide (pid ∈ [])) as [Hin|]; [|done]. by apply elem_of_nil in Hin. }
  unfold cleanup_step at 2 4. destruct (decide (k ∈ A)) as [HkA|HkA]; simpl.
  - destruct (IH ps ls pid) as [-> ->].
    destruct (decide (pid ∈ A)) as [|HpA]; [done|].
    assert (pid <> k) by congruence.
    destruct (decide (pid ∈ ks)), (decide (pid ∈ k :: ks)) as [Hin|Hnin];
      try done.
    + exfalso. apply Hnin. by right.
    + apply elem_of_cons in Hin as [?|?]; done.
  - destruct (IH (delete k ps) (delete k ls) pid) as [-> ->].
    destruct (decide (pid ∈ A)) as [HpA|HpA].
    + assert (k <> pid) by congruence. by rewrite !lookup_delete_ne.
    + destruct (decide (pid ∈ ks)), (decide (pid ∈ k :: ks)) as [Hin|Hnin];
        try done.
      * exfalso. apply Hnin. by right.
      * apply elem_of_cons in Hin as [->|?]; [|done].
        by rewrite !lookup_delete_eq.
      * apply not_elem_of_cons in Hnin as [? _]. by rewrite !lookup_delete_ne.
Qed.

Lemma cleanup_lookup pids ps ls pid :
  (cleanup pids ps ls).1 !! pid = (if decide (pid ∈ pids) then ps !! pid else None)
  /\ (cleanup pids ps ls).2 !! pid =
       (if decide (pid ∈ pids) then ls !! pid
        else match ps !! pid with Some _ => None | None => ls !! pid end).
Proof.
  unfold cleanup.
  destruct (cleanup_fold_lookup (list_to_set pids) (map_to_list ps).*1 ps ls pid)
    as [-> ->].
  assert (pid ∈ (map_to_list ps).*1 <-> is_Some (ps !! pid)) as Hkeys.
  { rewrite list_elem_of_fmap. split.
    - intros ([k v] & -> & Hkv). apply elem_of_map_to_list in Hkv. by exists v.
    - intros [v Hv]. exists (pid, v). split; [done|]. by apply elem_of_map_to_list. }
  destruct (decide (pid ∈ (list_to_set pids : gset Z))) as [Hin|Hnin].
  - apply elem_of_list_to_set in Hin. rewrite !(decide_True (P := pid ∈ pids)) by done. by split.
  - rewrite elem_of_list_to_set in Hnin. rewrite !(decide_False (P := pid ∈ pids)) by done.
    destruct (decide (pid ∈ (map_to_list ps).*1)) as [Hk|Hk].
    + apply Hkeys in Hk as [v ->]. by split.
    + rewrite Hkeys in Hk. apply eq_None_not_Some in Hk. rewrite Hk. by split.
Qed.

Lemma cleanup_inv pids ps ls :
  cache_inv ps ls -> cache_inv (cleanup pids ps ls).1 (cleanup pids ps ls).2.
Proof.
  intros Hinv pid. destruct (cleanup_lookup pids ps ls pid) as [-> ->].
  destruct (decide (pid ∈ pids)); [apply Hinv|].
  destruct (ps !! pid) eqn:Hp; [by intros [? ?]|].
  intros Hs. apply Hinv in Hs. rewrite Hp in Hs. by destruct Hs.
Qed.

(** The state of the loop once it has gone through [pids]. *)
Definition poll_end (P : Target) (m : Monitor) (env : Provider) (pids : list Z)
    : PollState :=
  poll_loop P env (elapsed (lastTime m) (time_Now env)) pids (poll_start m).

Lemma GetStats_monitor P m env :
  (GetStats P m env).2 =
    match process_Pids env with
    | Some pids =>
        let st := poll_end P m env pids in
        {| procs := (cleanup pids (ps_procs st) (ps_lastStats st)).1;
           lastStats := (cleanup pids (ps_procs st) (ps_lastStats st)).2;
           lastTime := time_Now env |}
    | None => m
    end.
Proof.
  unfold GetStats, poll_end.
  destruct (mem_VirtualMemory env), (host_Info env),
    (net_IOCounters env) as [[|? ?]|], (process_Pids env); simpl;
    try destruct (cleanup _ _ _); reflexivity.
Qed.

Lemma GetStats_inv P m env :
  cache_inv (procs m) (lastStats m) ->
  cache_inv (procs (GetStats P m env).2) (lastStats (GetStats P m env).2).
Proof.
  intros Hinv. rewrite GetStats_monitor.
  destruct (process_Pids env) as [pids|]; [|done]. simpl.
  apply cleanup_inv, poll_loop_inv, Hinv.
Qed.

Lemma reachable_inv P m : reachable P m -> cache_inv (procs m) (lastStats m).
Proof.
  induction 1 as [now|m env Hm IH].
  - intros pid. simpl. rewrite lookup_empty. by intros [? ?].
  - by apply GetStats_inv.
Qed.

Lemma poll_loop_app P env d pre post st :
  poll_loop P env d (pre ++ post) st =
    poll_loop P env d post (poll_loop P env d pre st).
Proof. unfold poll_loop. apply fold_left_app. Qed.

(** A sample the loop has taken stays among the samples of the poll. *)
Lemma poll_loop_procInfos_mono P env d pids : forall st p,
  p ∈ ps_procInfos st -> p ∈ ps_procInfos (poll_loop P env d pids st).
Proof.
  induction pids as [|q pids IH]; intros st p Hp; simpl; [done|].
  apply IH. unfold poll_step.
  destruct (acquire env (ps_procs st) q) as [[proc cache]|]; [|done].
  simpl. apply elem_of_app. by left.
Qed.

End PollFacts.

(** * A scenario: PID 100 over four polls, one second apart *)

Module Scenario.

(** A platform on which an out-of-range conversion yields 0. *)
Definition zero_platform : Target := {| uint64_out_of_range := fun _ => 0 |}.

(** Three partitions, one of them a loop device, one whose usage query
    fails; PID 9 exits before its handle is taken; every process has read
    [io] bytes so far. *)
Definition provider (now : Time) (pids : option (list Z)) (io : Z) : Provider :=
  {| cpu_Percent := Some [1.5%float];
     mem_VirtualMemory := None;
     disk_Partitions :=
       Some [ {| Device := "/dev/sda1"; Mountpoint := "/" |};
              {| Device := "/dev/loop3"; Mountpoint := "/snap/core" |};
              {| Device := "/dev/sdb1"; Mountpoint := "/mnt" |};
              {| Device := "/dev/sdc1"; Mountpoint := "/home" |} ];
     disk_Usage := fun mp =>
       if String.eqb mp "/mnt" then None
       else Some {| u_Total := 10; u_Used := 4; u_Free := 6; u_UsedPercent := 40%float |};
     host_Info := None;
     net_IOCounters := Some [];
     process_Pids := pids;
     time_Now := now;
     process_NewProcess := fun pid => if pid =? 9 then None else Some {| handle := pid |};
     proc_Name := fun _ => Some "p"%string;
     proc_CPUPercent := fun _ => None;
     proc_MemoryInfo := fun _ => None;
     proc_IOCounters := fun _ => Some {| ReadBytes := io; WriteBytes := 0 |};
     proc_Connections := fun _ => None |}.

Definition poll1 := GetStats zero_platform (NewMonitor 0) (provider 0 (Some [100; 9; 7]) 1000).
Definition poll2 := GetStats zero_platform poll1.2 (provider 1000000000 (Some [100; 9]) 3000).
Definition poll3 := GetStats zero_platform poll2.2 (provider 2000000000 (Some [100]) 2500).
(** The enumeration of the fourth poll fails. *)
Definition poll4 := GetStats zero_platform poll3.2 (provider 3000000000 None 2500).

Definition proc_sample (pid : Z) (cpu : float) (mem : Z) : ProcessInfo :=
  {| PID := pid; Name := "p"; CPU := cpu; Mem := mem; DiskIO := 0;
     DiskRate := 0; NetConns := 0 |}.

End Scenario.

(** * The claims *)

Import SortFacts SliceFacts OrderFacts PollFacts FloatFacts.

Lemma uint64_of_float_range P f : 0 <= uint64_of_float P f < 2 ^ 64.
Proof.
  unfold uint64_of_float, wrap64.
  destruct (trunc_float f) as [z|]; [|apply Z.mod_pos_bound; lia].
  destruct (in_uint64 z) eqn:Hz; [|apply Z.mod_pos_bound; lia].
  unfold in_uint64 in Hz. apply andb_true_iff in Hz as [H1 H2]. lia.
Qed.

Lemma disk_rate_range P d last diskIO : 0 <= disk_rate P d last diskIO < 2 ^ 64.
Proof.
  unfold disk_rate. destruct last as [last|]; [|lia].
  destruct (DiskIO last <=? diskIO); [apply uint64_of_float_range|lia].
Qed.

(** ** The disk rate *)

(** [uint64(q)] by what it is rather than by how it is computed: the
    integer [r] with [r <= q < r + 1] when [q] is a number below 2^64 that
    is not negative, and what the platform yields when [q] is larger or no
    number.  A finite [q] is [m * 2^e]; both sides are scaled to integers. *)
Lemma uint64_of_float_floor P q :
  let r := uint64_of_float P q in
  match Prim2SF q with
  | S754_zero _ => r = 0
  | S754_finite false m e =>
      if Z.pos m * 2 ^ Z.max 0 e <? 2 ^ 64 * 2 ^ Z.max 0 (- e)
      then r * 2 ^ Z.max 0 (- e) <= Z.pos m * 2 ^ Z.max 0 e
                                 < (r + 1) * 2 ^ Z.max 0 (- e)
      else r = wrap64 (uint64_out_of_range P q)
  | S754_finite true _ _ => True
  | S754_infinity _ | S754_nan => r = wrap64 (uint64_out_of_range P q)
  end.
Proof.
  unfold uint64_of_float, trunc_float.
  destruct (Prim2SF q) as [s|s| |s m e]; simpl; try reflexivity.
  destruct s; [exact I|]. simpl.
  destruct (Z.le_gt_cases 0 e) as [He|He].
  - rewrite Z.shiftl_mul_pow2 by done.
    rewrite (Z.max_r 0 e), (Z.max_l 0 (- e)) by lia.
    change (2 ^ 0) with 1. rewrite !Z.mul_1_r.
    pose proof (Z.pow_pos_nonneg 2 e ltac:(lia) He) as Hp.
    unfold in_uint64.
    destruct (Z.ltb_spec (Z.pos m * 2 ^ e) (2 ^ 64)) as [Hlt|Hge].
    + rewrite (proj2 (Z.leb_le _ _)) by nia. simpl. lia.
    + by rewrite andb_false_r.
  - rewrite Z.shiftl_div_pow2 by lia.
    rewrite (Z.max_l 0 e), (Z.max_r 0 (- e)) by lia.
    change (2 ^ 0) with 1. rewrite !Z.mul_1_r.
    pose proof (Z.pow_pos_nonneg 2 (- e) ltac:(lia) ltac:(lia)) as Hp.
    pose proof (Z.div_pos (Z.pos m) (2 ^ (- e)) ltac:(lia) Hp) as H0.
    pose proof (Z.mul_div_le (Z.pos m) (2 ^ (- e)) Hp) as H1.
    pose proof (Z.mul_succ_div_gt (Z.pos m) (2 ^ (- e)) Hp) as H2.
    unfold in_uint64.
    rewrite (proj2 (Z.leb_le _ _)) by exact H0. simpl.
    destruct (Z.ltb_spec (Z.pos m) (2 ^ 64 * 2 ^ (- e))) as [Hlt|Hge].
    + rewrite (proj2 (Z.ltb_lt _ _)); [lia|].
      apply Z.div_lt_upper_bound; lia.
    + rewrite (proj2 (Z.ltb_ge _ _)); [reflexivity|].
      apply Z.div_le_lower_bound; lia.
Qed.

(** The poll's duration is a positive number. *)
Lemma elapsed_positive_number lastT now :
  exists m e, Prim2SF (elapsed lastT now) = S754_finite false m e
              \/ Prim2SF (elapsed lastT now) = S754_infinity false.
Proof.
  assert (PrimFloat.ltb 0%float (elapsed lastT now) = true) as Hpos.
  { unfold elapsed.
    destruct (PrimFloat.leb (Seconds (Sub now lastT)) 0%float) eqn:Hle;
      [reflexivity|].
    apply not_leb_zero_ltb; [apply Seconds_not_nan|exact Hle]. }
  rewrite ltb_spec in Hpos. change (Prim2SF 0%float) with (S754_zero false) in Hpos.
  unfold SFltb in Hpos.
  destruct (Prim2SF (elapsed lastT now)) as [s|s| |s m e]; simpl in Hpos;
    try discriminate.
  - destruct s; [discriminate|]. exists 1%positive, 0. by right.
  - destruct s; [discriminate|]. exists m, e. by left.
Qed.

(** The rate as the specification words it: the quotient of the counter
    difference by the elapsed seconds, truncated; the elapsed time is given
    in nanoseconds, as the clock gives it. *)
Definition truncated_quotient (difference elapsed_ns : Z) : Z :=
  difference * Second / elapsed_ns.

(** A process that reads 33 bytes in the 1.1 s between two polls. *)
Definition slow_poll1 :=
  GetStats Scenario.zero_platform (NewMonitor 0) (Scenario.provider 0 (Some [100]) 0).
Definition slow_poll2 :=
  GetStats Scenario.zero_platform slow_poll1.2
    (Scenario.provider 1100000000 (Some [100]) 33).

(** C1 as the specification words it fails: the recorded rate is not the
    truncated quotient of the counter difference by the elapsed seconds.
    33 bytes in 1.1 s are 30 bytes per second; the poll records 29, since
    the elapsed seconds are a binary64 just above 1.1 and the binary64
    quotient is just below 30. *)
Lemma disk_rate_is_not_the_truncated_quotient :
  (fun p => (PID p, DiskIO p, DiskRate p)) <$> TopDisk slow_poll1.1.1 = [(100, 0, 0)]
  /\ lastTime slow_poll1.2 = 0
  /\ time_Now (Scenario.provider 1100000000 (Some [100]) 33) = 1100000000
  /\ (fun p => (PID p, DiskIO p, DiskRate p)) <$> TopDisk slow_poll2.1.1 = [(100, 33, 29)]
  /\ truncated_quotient (33 - 0) (1100000000 - 0) = 30.
Proof. vm_compute. auto. Qed.

(** C1, amended: every PID the poll processes (its handle was cached or
    could be taken) is recorded in the poll's samples, and in the sample
    cache the poll leaves when the enumeration does not list the PID again,
    with a disk rate that is a [uint64], hence never negative.  The rate is
    0 when the sample cache holds no previous sample of the PID, and 0 when
    the cumulative counter is below the previous one.  Otherwise it is the
    conversion to [uint64] of the binary64 quotient [q] of the counter
    difference (as a [float64], exact when below 2^32) by the poll's
    elapsed seconds: [q] is never negative; the rate is the integer [r]
    with [r <= q < r + 1] when [q] is below 2^64, and what the platform's
    conversion yields when [q] is 2^64 or more, infinite or not a number.
    ([q] is [mq * 2^eq]; the inequalities are scaled to integers.)  The
    previous sample is the one cached before the poll when the PID was not
    enumerated earlier in the same poll. *)
Theorem disk_rate_of_processed_pid (P : Target) (m : Monitor) (env : Provider)
    (pre post : list Z) (pid : Z) (proc : Process) (cache : gmap Z Process) :
  process_Pids env = Some (pre ++ pid :: post) ->
  let d := elapsed (lastTime m) (time_Now env) in
  let st := poll_loop P env d pre (poll_start m) in
  acquire env (ps_procs st) pid = Some (proc, cache) ->
  exists info,
    poll_step P env d st pid =
      {| ps_procs := cache;
         ps_lastStats := <[pid := info]> (ps_lastStats st);
         ps_procInfos := ps_procInfos st ++ [info] |}
    /\ info ∈ ps_procInfos (poll_end P m env (pre ++ pid :: post))
    /\ (pid ∉ post -> lastStats (GetStats P m env).2 !! pid = Some info)
    /\ PID info = pid
    /\ DiskIO info = match proc_IOCounters env proc with
                     | Some io => wrap64 (ReadBytes io + WriteBytes io)
                     | None => 0
                     end
    /\ 0 <= DiskRate info < 2 ^ 64
    /\ match ps_lastStats st !! pid with
       | None => DiskRate info = 0
       | Some prev =>
           if DiskIO info <? DiskIO prev then DiskRate info = 0
           else
             let difference := DiskIO info - DiskIO prev in
             let q := PrimFloat.div (float64_of_uint64 difference) d in
             (difference < 2 ^ 32 ->
              float64_of_uint64 difference =
                PrimFloat.of_uint63 (Uint63.of_Z difference))
             /\ match Prim2SF q with
                | S754_zero _ => DiskRate info = 0
                | S754_finite false mq eq =>
                    if Z.pos mq * 2 ^ Z.max 0 eq <? 2 ^ 64 * 2 ^ Z.max 0 (- eq)
                    then DiskRate info * 2 ^ Z.max 0 (- eq)
                           <= Z.pos mq * 2 ^ Z.max 0 eq
                           < (DiskRate info + 1) * 2 ^ Z.max 0 (- eq)
                    else DiskRate info = wrap64 (uint64_out_of_range P q)
                | S754_infinity false | S754_nan =>
                    DiskRate info = wrap64 (uint64_out_of_range P q)
                | S754_finite true _ _ | S754_infinity true => False
                end
       end
    /\ (pid ∉ pre -> ps_lastStats st !! pid = lastStats m !! pid).
Proof.
  intros Hpids d st Hacq.
  set (info := sample P env d (ps_lastStats st !! pid) pid proc).
  assert (poll_step P env d st pid =
            {| ps_procs := cache;
               ps_lastStats := <[pid := info]> (ps_lastStats st);
               ps_procInfos := ps_procInfos st ++ [info] |}) as Hstep.
  { unfold poll_step. by rewrite Hacq. }
  assert (poll_end P m env (pre ++ pid :: post) =
            poll_loop P env d post (poll_step P env d st pid)) as Hend.
  { unfold poll_end. fold d. by rewrite poll_loop_app. }
  exists info.
  split; [exact Hstep|]. split; [|split; [|split; [|split; [|split; [|split]]]]].
  - rewrite Hend. apply poll_loop_procInfos_mono. rewrite Hstep. simpl.
    apply elem_of_app. right. apply list_elem_of_singleton. reflexivity.
  - intros Hpost. rewrite GetStats_monitor, Hpids. simpl.
    rewrite (proj2 (cleanup_lookup _ _ _ pid)).
    rewrite decide_True by (apply elem_of_app; right; left).
    rewrite Hend, poll_loop_lastStats_notin by done.
    rewrite Hstep. simpl. by rewrite lookup_insert_eq.
  - reflexivity.
  - unfold info, sample. simpl. by destruct (proc_IOCounters env proc).
  - apply disk_rate_range.
  - unfold info. simpl. destruct (ps_lastStats st !! pid) as [prev|]; [|reflexivity].
    simpl. rewrite Z.ltb_antisym.
    destruct (DiskIO prev <=? _) eqn:Hle; [|reflexivity].
    simpl. apply Z.leb_le in Hle. split.
    { intros Hsmall. apply float64_of_uint64_small. lia. }
    match goal with
    | |- context [PrimFloat.div ?x d] =>
        pose proof (uint64_of_float_floor P (PrimFloat.div x d)) as Hfloor;
        pose proof (SFdiv_not_negative (Prim2SF x) (Prim2SF d)
                      (float64_of_uint64_signed _)
                      (elapsed_positive_number _ _)) as Hsign;
        rewrite <- div_spec in Hsign;
        destruct (Prim2SF (PrimFloat.div x d)) as [s|s| |s mq eq]
    end; simpl in Hfloor; try destruct s; try done.
  - intros Hnotin. unfold st. by rewrite poll_loop_lastStats_notin.
Qed.

Lemma disk_rate_of_processed_pid_witness :
  let P := Scenario.zero_platform in
  let m := Scenario.poll1.2 in
  let env := Scenario.provider 1000000000 (Some [100; 9]) 3000 in
  let d := elapsed (lastTime m) (time_Now env) in
  let st := poll_loop P env d [] (poll_start m) in
  process_Pids env = Some ([] ++ 100 :: [9])
  /\ acquire env (ps_procs st) 100 = Some ({| handle := 100 |}, procs m)
  /\ exists info,
       info ∈ ps_procInfos (poll_end P m env ([] ++ 100 :: [9]))
       /\ lastStats (GetStats P m env).2 !! 100 = Some info
       /\ PID info = 100
       /\ 0 <= DiskRate info < 2 ^ 64.
Proof.
  intros P m env d st.
  assert (acquire env (ps_procs st) 100 = Some ({| handle := 100 |}, procs m)) as Ha
    by (vm_compute; reflexivity).
  split; [reflexivity|]. split; [exact Ha|].
  destruct (disk_rate_of_processed_pid P m env [] [9] 100 _ _ eq_refl Ha)
    as (info & _ & Hin & Hlast & Hpid & _ & Hrange & _).
  exists info. split; [exact Hin|]. split; [|split; [exact Hpid|exact Hrange]].
  apply Hlast. intros H. apply elem_of_cons in H as [H|H]; [discriminate H|].
  by apply not_elem_of_nil in H.
Defined.

(** A quotient of 2^64 or more: 20 000 000 000 bytes in one nanosecond.
    The rate is what the platform's conversion yields, 0 on one that yields
    0 and 2^63 on one that yields 2^63. *)
Example rate_out_of_range_is_the_platforms :
  let last := Some (Scenario.proc_sample 1 0%float 0) in
  disk_rate {| uint64_out_of_range := fun _ => 0 |} (elapsed 0 1) last 20000000000 = 0
  /\ disk_rate {| uint64_out_of_range := fun _ => 2 ^ 63 |} (elapsed 0 1) last
        20000000000 = 2 ^ 63.
Proof. vm_compute. auto. Qed.

(** The scenario of the specification: 1000 bytes, then 3000 one second
    later (2000 B/s), then a counter that fell back to 2500 (0 B/s). *)
Example scenario_rates :
  DiskRate <$> TopDisk Scenario.poll1.1.1 = [0; 0]
  /\ DiskRate <$> TopDisk Scenario.poll2.1.1 = [2000]
  /\ DiskRate <$> TopDisk Scenario.poll3.1.1 = [0].
Proof. vm_compute. auto. Qed.


(** A duration that is not positive converts to seconds that are not. *)
Lemma Seconds_nonpos d : d <= 0 -> PrimFloat.leb (Seconds d) 0%float = true.
Proof.
  intros Hd.
  assert (signed true (Prim2SF (Seconds d))) as Hs.
  { unfold Seconds. rewrite add_spec, div_spec, float_1e9_finite.
    apply SFadd_signed; [|apply SFdiv_signed]; apply float64_of_int_signed_nonpos.
    - rewrite <- (Z.opp_involutive d), Z.quot_opp_l by discriminate.
      pose proof (Z.quot_pos (- d) Second ltac:(lia) ltac:(reflexivity)). lia.
    - rewrite <- (Z.opp_involutive d), Z.rem_opp_l by discriminate.
      pose proof (Z.rem_nonneg (- d) Second ltac:(discriminate) ltac:(lia)). lia. }
  rewrite leb_spec. change (Prim2SF 0%float) with (S754_zero false).
  unfold SFleb. destruct (Prim2SF (Seconds d)) as [s|s| |s m e]; simpl in *;
    try done; by subst.
Qed.

(** C6: the duration every disk rate of a poll is divided by (C1) is
    strictly positive, whatever the two clock readings are; when the time
    measured since the last poll is zero or negative it is exactly 1. *)
Theorem elapsed_strictly_positive (lastT now : Time) :
  PrimFloat.ltb 0%float (elapsed lastT now) = true
  /\ (now <= lastT -> elapsed lastT now = 1%float).
Proof.
  unfold elapsed. split.
  - destruct (PrimFloat.leb (Seconds (Sub now lastT)) 0%float) eqn:Hle.
    + reflexivity.
    + apply not_leb_zero_ltb; [apply Seconds_not_nan|exact Hle].
  - intros Hle. rewrite Seconds_nonpos; [reflexivity|].
    unfold Sub, minDuration, maxDuration. lia.
Qed.

Lemma elapsed_strictly_positive_witness :
  (7 <= 7)
  /\ PrimFloat.ltb 0%float (elapsed 7 7) = true
  /\ elapsed 7 7 = 1%float.
Proof.
  split; [lia|].
  split; [exact (proj1 (elapsed_strictly_positive 7 7))|].
  apply (proj2 (elapsed_strictly_positive 7 7)). lia.
Defined.

(** The claim as the specification words it fails: the fourth poll of the
    scenario, whose enumeration fails, reads the clock at 3 s and leaves
    [lastTime] at the 2 s of the third poll. *)
Lemma lastTime_stale_after_failed_enumeration :
  process_Pids (Scenario.provider 3000000000 None 2500) = None
  /\ time_Now (Scenario.provider 3000000000 None 2500) = 3000000000
  /\ lastTime Scenario.poll4.2 = 2000000000
  /\ lastTime Scenario.poll4.2 <> time_Now (Scenario.provider 3000000000 None 2500).
Proof. vm_compute. repeat split; congruence. Qed.

(** C9, amended: at the end of a poll whose PID enumeration succeeded,
    [lastTime] is the timestamp taken during that poll; a poll whose
    enumeration fails takes no timestamp and leaves [lastTime] as it was. *)
Theorem lastTime_after_poll (P : Target) (m : Monitor) (env : Provider) :
  lastTime (GetStats P m env).2 =
    match process_Pids env with
    | Some _ => time_Now env
    | None => lastTime m
    end.
Proof.
  rewrite GetStats_monitor. destruct (process_Pids env); reflexivity.
Qed.

(** The claim as the specification words it fails: PID 100, cached by the
    third poll, is in both caches at the end of the fourth poll, whose
    enumeration failed and so lists no PID at all. *)
Lemma stale_pid_after_failed_enumeration :
  reachable Scenario.zero_platform Scenario.poll3.2
  /\ is_Some (procs Scenario.poll4.2 !! 100)
  /\ is_Some (lastStats Scenario.poll4.2 !! 100)
  /\ 100 ∉ default [] (process_Pids (Scenario.provider 3000000000 None 2500)).
Proof.
  split; [|split; [|split]].
  - repeat apply reach_poll. apply reach_new.
  - vm_compute. eauto.
  - vm_compute. eauto.
  - simpl. apply not_elem_of_nil.
Qed.

(** C2, amended: at the end of every poll whose PID enumeration succeeded,
    every PID in the handle cache or in the sample cache is in that poll's
    enumeration, so that a PID absent from it has left both caches; a poll
    whose enumeration fails leaves both caches as they were. *)
Theorem caches_within_enumeration (P : Target) (m : Monitor) (env : Provider)
    (pids : list Z) (pid : Z) :
  reachable P m ->
  process_Pids env = Some pids ->
  (is_Some (procs (GetStats P m env).2 !! pid)
   \/ is_Some (lastStats (GetStats P m env).2 !! pid)) ->
  pid ∈ pids.
Proof.
  intros Hreach Hpids. rewrite GetStats_monitor, Hpids. simpl.
  set (st := poll_end P m env pids).
  assert (cache_inv (ps_procs st) (ps_lastStats st)) as Hinv.
  { apply poll_loop_inv. simpl. by apply reachable_inv with P. }
  destruct (cleanup_lookup pids (ps_procs st) (ps_lastStats st) pid) as [-> ->].
  destruct (decide (pid ∈ pids)) as [Hin|Hnin]; [done|].
  intros [[? ?]|Hs]; [done|].
  destruct (ps_procs st !! pid) eqn:Hp; [by destruct Hs|].
  apply Hinv in Hs. rewrite Hp in Hs. by destruct Hs.
Qed.

Lemma caches_within_enumeration_witness :
  reachable Scenario.zero_platform Scenario.poll1.2
  /\ process_Pids (Scenario.provider 1000000000 (Some [100; 9]) 3000) = Some [100; 9]
  /\ is_Some (procs Scenario.poll2.2 !! 100)
  /\ 100 ∈ [100; 9].
Proof.
  assert (reachable Scenario.zero_platform Scenario.poll1.2) as Hr
    by (apply reach_poll, reach_new).
  assert (is_Some (procs Scenario.poll2.2 !! 100)) as Hs
    by (vm_compute; eauto).
  split; [exact Hr|]. split; [reflexivity|]. split; [exact Hs|].
  exact (caches_within_enumeration Scenario.zero_platform Scenario.poll1.2
           (Scenario.provider 1000000000 (Some [100; 9]) 3000) [100; 9] 100
           Hr eq_refl (or_introl Hs)).
Defined.

(** ** Ranking *)

Lemma ranking_length less n l :
  length (ranking less n l) = Nat.min (length l) n.
Proof.
  unfold ranking. rewrite length_take, stable_sort_length. lia.
Qed.

Lemma ranking_submseteq less n l : ranking less n l ⊆+ l.
Proof.
  unfold ranking. rewrite <- (stable_sort_Permutation less l) at 2.
  apply sublist_submseteq, sublist_take.
Qed.

(** C3: each of the four Top-N lists holds [min(n, 5)] of the [n] samples
    it is computed from, and nothing but those samples: never more than 5,
    all of them when there are fewer, none (and no error) when there are
    none. *)
Theorem top_lists_length (procInfos : list ProcessInfo) :
  let t := sort_and_slice procInfos in
  (length (top_cpu t) = Nat.min (length procInfos) 5
   /\ length (top_mem t) = Nat.min (length procInfos) 5
   /\ length (top_disk t) = Nat.min (length procInfos) 5
   /\ length (top_net t) = Nat.min (length procInfos) 5)
  /\ (top_cpu t ⊆+ procInfos /\ top_mem t ⊆+ procInfos
      /\ top_disk t ⊆+ procInfos /\ top_net t ⊆+ procInfos).
Proof.
  rewrite sort_and_slice_ranking. simpl.
  split; repeat split; (apply ranking_length || apply ranking_submseteq).
Qed.

(** A rate is truncated: 7 bytes in 2 s are 3 B/s. *)
Example rate_truncates :
  disk_rate Scenario.zero_platform (elapsed 0 2000000000)
    (Some (Scenario.proc_sample 1 0%float 0)) 7 = 3.
Proof. vm_compute. reflexivity. Qed.

(** The truncation example of the specification: 12 processes give 5
    entries in every list, 3 give 3, none gives none. *)
Example truncation_examples :
  let twelve := (fun i => Scenario.proc_sample i 0%float (i * 7 mod 5)) <$> seqZ 1 12 in
  let three := take 3 twelve in
  length (top_mem (sort_and_slice twelve)) = 5%nat
  /\ PID <$> top_mem (sort_and_slice twelve) = [2; 7; 12; 4; 9]
  /\ length (top_mem (sort_and_slice three)) = 3%nat
  /\ top_net (sort_and_slice []) = [].
Proof. vm_compute. auto. Qed.

(** A list is ranked by an integer metric: the metric never increases along
    the list, and of two entries with the same metric value the one first in
    the list has the PID that is not larger. *)
Definition ranked_by (f : ProcessInfo -> Z) (l : list ProcessInfo) : Prop :=
  forall i j a b, (i < j)%nat -> l !! i = Some a -> l !! j = Some b ->
    f b <= f a /\ (f a = f b -> PID a <= PID b).

(** The same for the CPU percentage, with the comparisons of [float64]. *)
Definition ranked_by_cpu (l : list ProcessInfo) : Prop :=
  forall i j a b, (i < j)%nat -> l !! i = Some a -> l !! j = Some b ->
    PrimFloat.leb (CPU b) (CPU a) = true
    /\ (PrimFloat.eqb (CPU a) (CPU b) = true -> PID a <= PID b).

Lemma ranking_sorted less (Q : ProcessInfo -> Prop) n l :
  strict_weak less Q -> Forall Q l ->
  StronglySorted (before less) (ranking less n l) /\ Forall Q (ranking less n l).
Proof.
  intros Hsw HQ. split.
  - apply StronglySorted_take. by apply stable_sort_sorted with Q.
  - unfold ranking. apply Forall_take. by rewrite stable_sort_Permutation.
Qed.

Lemma ranking_ranked_by (f : ProcessInfo -> Z) n l :
  ranked_by f
    (ranking (fun p1 p2 => if negb (f p1 =? f p2) then f p2 <? f p1
                           else PID p1 <? PID p2) n l).
Proof.
  intros i j a b Hij Ha Hb.
  destruct (ranking_sorted _ (fun _ => True) n l (less_int_strict_weak f))
    as [Hs _]; [by apply Forall_true|].
  pose proof (StronglySorted_lookup _ _ _ _ _ _ Hs Hij Ha Hb) as Hab.
  unfold before in Hab.
  apply (bool_false_iff _ _ (less_int_spec f b a)) in Hab. lia.
Qed.

Lemma ranking_ranked_by_cpu n l :
  Forall (fun p => is_number (CPU p)) l ->
  ranked_by_cpu (ranking less_cpu n l).
Proof.
  intros Hl i j a b Hij Ha Hb.
  destruct (ranking_sorted _ _ n l less_cpu_strict_weak Hl) as [Hs HQ].
  pose proof (StronglySorted_lookup _ _ _ _ _ _ Hs Hij Ha Hb) as Hab.
  rewrite Forall_forall in HQ.
  assert (is_number (CPU a)) as Hna by (eapply HQ, list_elem_of_lookup_2, Ha).
  assert (is_number (CPU b)) as Hnb by (eapply HQ, list_elem_of_lookup_2, Hb).
  unfold before in Hab.
  apply (bool_false_iff _ _ (less_cpu_key b a Hnb Hna)) in Hab.
  rewrite (float_leb_key _ _ Hnb Hna), (float_eqb_key _ _ Hna Hnb).
  split; [|intros Heq; rewrite Heq in Hab]; key_lia.
Qed.

(** The claim as the specification words it fails on a CPU percentage that
    is a NaN, which no comparison orders: of the three samples below the
    Top-CPU list keeps 5 % ahead of 7 %. *)
Lemma top_cpu_unsorted_with_nan :
  ~ ranked_by_cpu
      (top_cpu (sort_and_slice
         [Scenario.proc_sample 1 5%float 0;
          Scenario.proc_sample 2 PrimFloat.nan 0;
          Scenario.proc_sample 3 7%float 0])).
Proof.
  assert (top_cpu (sort_and_slice
            [Scenario.proc_sample 1 5%float 0;
             Scenario.proc_sample 2 PrimFloat.nan 0;
             Scenario.proc_sample 3 7%float 0]) =
          [Scenario.proc_sample 1 5%float 0;
           Scenario.proc_sample 2 PrimFloat.nan 0;
           Scenario.proc_sample 3 7%float 0]) as -> by (vm_compute; reflexivity).
  intros H.
  destruct (H 0%nat 2%nat _ _ ltac:(lia) eq_refl eq_refl) as [Hle _].
  vm_compute in Hle. discriminate.
Qed.

(** C4, amended: the memory, disk-rate and connection lists are sorted by
    their metric, largest first, entries with equal metric values in
    ascending PID order, for every collection of samples; so is the CPU
    list for every collection of samples in which no CPU value is a NaN. *)
Theorem top_lists_sorted (procInfos : list ProcessInfo) :
  let t := sort_and_slice procInfos in
  (Forall (fun p => is_number (CPU p)) procInfos -> ranked_by_cpu (top_cpu t))
  /\ ranked_by Mem (top_mem t)
  /\ ranked_by DiskRate (top_disk t)
  /\ ranked_by NetConns (top_net t).
Proof.
  rewrite sort_and_slice_ranking. simpl. split; [|split; [|split]].
  - apply ranking_ranked_by_cpu.
  - apply (ranking_ranked_by Mem).
  - apply (ranking_ranked_by DiskRate).
  - apply (ranking_ranked_by NetConns).
Qed.

Lemma top_lists_sorted_witness :
  let l := [Scenario.proc_sample 1 5%float 0;
            Scenario.proc_sample 2 9%float 0;
            Scenario.proc_sample 3 7%float 0] in
  Forall (fun p => is_number (CPU p)) l
  /\ ranked_by_cpu (top_cpu (sort_and_slice l)).
Proof.
  intros l.
  assert (Forall (fun p => is_number (CPU p)) l) as Hl
    by (repeat constructor).
  split; [exact Hl|].
  exact (proj1 (top_lists_sorted l) Hl).
Defined.

(** ** Determinism *)

Lemma NoDup_fmap_inj_on {A B} (f : A -> B) (l : list A) x y :
  NoDup (f <$> l) -> x ∈ l -> y ∈ l -> f x = f y -> x = y.
Proof.
  induction l as [|a l IH]; simpl; intros Hnd Hx Hy Hf.
  { by apply elem_of_nil in Hx. }
  apply NoDup_cons in Hnd as [Ha Hnd].
  apply elem_of_cons in Hx as [->|Hx], Hy as [->|Hy]; auto.
  - exfalso. apply Ha. rewrite Hf. by apply list_elem_of_fmap_2.
  - exfalso. apply Ha. rewrite <- Hf. by apply list_elem_of_fmap_2.
Qed.

(** When [less] orders the samples strictly up to their PID, and the PIDs
    are distinct, the sorted list depends on the set of samples only. *)
Lemma stable_sort_permutation less (Q : ProcessInfo -> Prop) l1 l2 :
  strict_weak less Q ->
  (forall x y, Q x -> Q y -> less x y = false -> less y x = false -> PID x = PID y) ->
  NoDup (PID <$> l1) -> Forall Q l1 -> l1 ≡ₚ l2 ->
  stable_sort less l1 = stable_sort less l2.
Proof.
  intros Hsw Htot Hnd HQ1 Hperm.
  assert (Forall Q l2) as HQ2 by (by rewrite <- Hperm).
  apply (StronglySorted_unique_strong (before less)).
  - intros x1 x2 Hx1 Hx2 H12 H21.
    rewrite stable_sort_Permutation in Hx1, Hx2. rewrite <- Hperm in Hx2.
    rewrite Forall_forall in HQ1.
    apply (NoDup_fmap_inj_on PID l1); auto.
  - by apply stable_sort_sorted with Q.
  - by apply stable_sort_sorted with Q.
  - by rewrite !stable_sort_Permutation.
Qed.

Lemma ranking_permutation_int (f : ProcessInfo -> Z) n l1 l2 :
  NoDup (PID <$> l1) -> l1 ≡ₚ l2 ->
  let less := fun p1 p2 => if negb (f p1 =? f p2) then f p2 <? f p1
                           else PID p1 <? PID p2 in
  ranking less n l1 = ranking less n l2.
Proof.
  intros Hnd Hperm less. unfold ranking. f_equal.
  apply (stable_sort_permutation less (fun _ => True)); auto.
  - apply less_int_strict_weak.
  - intros x y _ _ Hxy Hyx.
    apply (bool_false_iff _ _ (less_int_spec f x y)) in Hxy.
    apply (bool_false_iff _ _ (less_int_spec f y x)) in Hyx. lia.
  - by apply Forall_true.
Qed.

Lemma ranking_permutation_cpu n l1 l2 :
  NoDup (PID <$> l1) -> Forall (fun p => is_number (CPU p)) l1 -> l1 ≡ₚ l2 ->
  ranking less_cpu n l1 = ranking less_cpu n l2.
Proof.
  intros Hnd HQ Hperm. unfold ranking. f_equal.
  apply (stable_sort_permutation less_cpu (fun p => is_number (CPU p))); auto.
  - apply less_cpu_strict_weak.
  - intros x y Hx Hy Hxy Hyx.
    apply (bool_false_iff _ _ (less_cpu_key x y Hx Hy)) in Hxy.
    apply (bool_false_iff _ _ (less_cpu_key y x Hy Hx)) in Hyx. key_lia.
Qed.

(** The claim as the specification words it fails on a NaN: the three
    samples of distinct PIDs below, enumerated in one order and in the
    reverse order, give two different Top-CPU lists. *)
Lemma top_cpu_depends_on_order_with_nan :
  let l1 := [Scenario.proc_sample 1 5%float 0;
             Scenario.proc_sample 2 PrimFloat.nan 0;
             Scenario.proc_sample 3 7%float 0] in
  let l2 := [Scenario.proc_sample 3 7%float 0;
             Scenario.proc_sample 2 PrimFloat.nan 0;
             Scenario.proc_sample 1 5%float 0] in
  NoDup (PID <$> l1)
  /\ l1 ≡ₚ l2
  /\ PID <$> top_cpu (sort_and_slice l1) = [1; 2; 3]
  /\ PID <$> top_cpu (sort_and_slice l2) = [3; 2; 1]
  /\ top_cpu (sort_and_slice l1) <> top_cpu (sort_and_slice l2).
Proof.
  intros l1 l2.
  assert (NoDup (PID <$> l1)) as Hnd.
  { apply (bool_decide_unpack _). vm_compute. exact I. }
  assert (PID <$> top_cpu (sort_and_slice l1) = [1; 2; 3]) as H1
    by (vm_compute; reflexivity).
  assert (PID <$> top_cpu (sort_and_slice l2) = [3; 2; 1]) as H2
    by (vm_compute; reflexivity).
  split; [exact Hnd|split; [|split; [exact H1|split; [exact H2|]]]].
  - exact (Permutation_rev l1).
  - intros Heq. rewrite Heq, H2 in H1. discriminate.
Qed.

(** C5, amended: for samples with pairwise-distinct PIDs, the memory,
    disk-rate and connection rankings are the same for the samples in any
    order; so is the CPU ranking when no CPU value is a NaN. *)
Theorem ranking_is_order_independent (l1 l2 : list ProcessInfo) :
  NoDup (PID <$> l1) ->
  l1 ≡ₚ l2 ->
  (Forall (fun p => is_number (CPU p)) l1 ->
   top_cpu (sort_and_slice l1) = top_cpu (sort_and_slice l2))
  /\ top_mem (sort_and_slice l1) = top_mem (sort_and_slice l2)
  /\ top_disk (sort_and_slice l1) = top_disk (sort_and_slice l2)
  /\ top_net (sort_and_slice l1) = top_net (sort_and_slice l2).
Proof.
  intros Hnd Hperm. rewrite !sort_and_slice_ranking. simpl.
  split; [|split; [|split]].
  - intros HQ. by apply ranking_permutation_cpu.
  - by apply (ranking_permutation_int Mem).
  - by apply (ranking_permutation_int DiskRate).
  - by apply (ranking_permutation_int NetConns).
Qed.

Lemma ranking_is_order_independent_witness :
  let l1 := [Scenario.proc_sample 1 5%float 30;
             Scenario.proc_sample 2 9%float 10;
             Scenario.proc_sample 3 7%float 20] in
  let l2 := [Scenario.proc_sample 3 7%float 20;
             Scenario.proc_sample 2 9%float 10;
             Scenario.proc_sample 1 5%float 30] in
  NoDup (PID <$> l1)
  /\ l1 ≡ₚ l2
  /\ Forall (fun p => is_number (CPU p)) l1
  /\ top_cpu (sort_and_slice l1) = top_cpu (sort_and_slice l2)
  /\ top_mem (sort_and_slice l1) = top_mem (sort_and_slice l2).
Proof.
  intros l1 l2.
  assert (NoDup (PID <$> l1)) as Hnd.
  { apply (bool_decide_unpack _). vm_compute. exact I. }
  assert (l1 ≡ₚ l2) as Hperm by exact (Permutation_rev l1).
  assert (Forall (fun p => is_number (CPU p)) l1) as HQ by (repeat constructor).
  split; [exact Hnd|]. split; [exact Hperm|]. split; [exact HQ|].
  split.
  - exact (proj1 (ranking_is_order_independent l1 l2 Hnd Hperm) HQ).
  - exact (proj1 (proj2 (ranking_is_order_independent l1 l2 Hnd Hperm))).
Defined.

(** ** The input of [getTop] is left alone *)

(** What one call of [getTop] on the heap [h] shows as its result. *)
Definition getTop_result (procs : slice) (less : ProcessInfo -> ProcessInfo -> bool)
    (limit : nat) (h : heap) : list ProcessInfo :=
  contents (getTop procs less limit h).2 (getTop procs less limit h).1.

(** C10: [getTop] sorts a copy: after a call every array of the heap it was
    given, the caller's samples among them, holds what it held, in the same
    order; and the four calls of a poll, run one after the other on the same
    samples, each give what a call on its own gives, and leave the samples
    as they were. *)
Theorem getTop_leaves_input (h : heap) (procs : slice) :
  valid h procs ->
  (forall less limit,
     preserves h (getTop procs less limit h).2
     /\ contents (getTop procs less limit h).2 procs = contents h procs)
  /\ (let r := rank_all procs h in
      contents r.2 procs = contents h procs
      /\ contents r.2 r.1.1.1.1 = getTop_result procs less_cpu top_limit h
      /\ contents r.2 r.1.1.1.2 = getTop_result procs less_mem top_limit h
      /\ contents r.2 r.1.1.2 = getTop_result procs less_disk top_limit h
      /\ contents r.2 r.1.2 = getTop_result procs less_net top_limit h).
Proof.
  intros Hv. split.
  - intros less limit.
    destruct (getTop procs less limit h) as [r h'] eqn:E.
    destruct (getTop_spec _ _ _ _ _ _ Hv E) as (_ & Hp & _). simpl.
    split; [exact Hp|by apply preserves_contents].
  - assert (forall less, getTop_result procs less top_limit h
                         = ranking less top_limit (contents h procs)) as Hres.
    { intros less. unfold getTop_result.
      destruct (getTop procs less top_limit h) as [r h'] eqn:E. simpl.
      by destruct (getTop_spec _ _ _ _ _ _ Hv E) as (-> & _ & _). }
    destruct (rank_all procs h) as [[[[c m] d] n] h'] eqn:E.
    destruct (rank_all_spec _ _ _ _ _ _ _ Hv E) as (Hc & Hm & Hd & Hn & Hp).
    simpl. rewrite !Hres.
    split; [by apply preserves_contents|]. by repeat split.
Qed.

Lemma getTop_leaves_input_witness :
  let l := [Scenario.proc_sample 1 5%float 30;
            Scenario.proc_sample 2 9%float 10] in
  let h : heap := {[ 1%positive := l ]} in
  let procs := {| s_arr := Some 1%positive; s_len := 2 |} in
  valid h procs
  /\ contents (getTop procs less_cpu top_limit h).2 procs = contents h procs.
Proof.
  intros l h procs.
  assert (valid h procs) as Hv.
  { exists l. split; [reflexivity|simpl; lia]. }
  split; [exact Hv|].
  exact (proj2 (proj1 (getTop_leaves_input h procs Hv) less_cpu top_limit)).
Defined.

(** ** Failures of the provider *)

(** The snapshot field by field: each one is a function of its own query. *)
Lemma GetStats_snapshot P m env :
  (GetStats P m env).1 =
    (let tops := match process_Pids env with
                 | Some pids => sort_and_slice (ps_procInfos (poll_end P m env pids))
                 | None => {| top_cpu := []; top_mem := []; top_disk := [];
                              top_net := [] |}
                 end in
     {| CPUUsage := match cpu_Percent env with Some (c :: _) => c | _ => 0%float end;
        MemoryTotal := match mem_VirtualMemory env with Some vm => vm_Total vm | None => 0 end;
        MemoryUsed := match mem_VirtualMemory env with Some vm => vm_Used vm | None => 0 end;
        MemoryFree := match mem_VirtualMemory env with Some vm => vm_Free vm | None => 0 end;
        Disks := disk_section env;
        Uptime := match host_Info env with Some i => i_Uptime i | None => 0 end;
        Hostname := match host_Info env with Some i => i_Hostname i | None => "" end;
        OS := match host_Info env with Some i => i_OS i | None => "" end;
        Platform := match host_Info env with Some i => i_Platform i | None => "" end;
        NetSent := match net_IOCounters env with Some (n :: _) => BytesSent n | _ => 0 end;
        NetRecv := match net_IOCounters env with Some (n :: _) => BytesRecv n | _ => 0 end;
        TopCPU := top_cpu tops; TopMem := top_mem tops;
        TopDisk := top_disk tops; TopNet := top_net tops |},
     None).
Proof.
  unfold GetStats, poll_end.
  destruct (mem_VirtualMemory env), (host_Info env),
    (net_IOCounters env) as [[|? ?]|], (process_Pids env); simpl;
    try destruct (cleanup _ _ _); reflexivity.
Qed.

(** ** The disk list *)

Definition usage_record (p : PartitionStat) (u : UsageStat) : DiskInfo :=
  {| Path := Mountpoint p; Total := u_Total u; Used := u_Used u;
     Free := u_Free u; UsedPercent := u_UsedPercent u |}.

(** The disk list as the specification words it: in the order of the
    enumeration, one usage record for every partition that is not a loop
    device and whose usage query succeeds, nothing for the others. *)
Definition usage_records (env : Provider) (parts : list PartitionStat)
    : list DiskInfo :=
  omap (fun p => if is_loop_device p then None
                 else usage_record p <$> disk_Usage env (Mountpoint p)) parts.

Lemma disk_fold_usage_records env parts : forall acc,
  fold_left (disk_step env) parts acc = acc ++ usage_records env parts.
Proof.
  induction parts as [|p parts IH]; intros acc; simpl.
  { by rewrite app_nil_r. }
  rewrite IH. unfold disk_step, usage_records. simpl.
  destruct (is_loop_device p); [done|].
  destruct (disk_Usage env (Mountpoint p)) as [u|]; simpl; [|done].
  by rewrite <- app_assoc.
Qed.

(** C8: the disk list of the snapshot is the list of usage records of the
    enumerated partitions that are not loop devices and whose usage query
    succeeded, one for each, in the order of the enumeration: a record is
    in the list exactly when it is the record of such a partition, and a
    partition whose usage query fails contributes nothing. *)
Theorem disks_are_usage_records (P : Target) (m : Monitor) (env : Provider) :
  let parts := default [] (disk_Partitions env) in
  Disks (GetStats P m env).1.1 = usage_records env parts
  /\ length (Disks (GetStats P m env).1.1) =
       length (filter (fun p => is_loop_device p = false
                                /\ is_Some (disk_Usage env (Mountpoint p))) parts)
  /\ (forall d, d ∈ Disks (GetStats P m env).1.1 <->
        exists p u, p ∈ parts /\ is_loop_device p = false
                    /\ disk_Usage env (Mountpoint p) = Some u
                    /\ d = usage_record p u).
Proof.
  intros parts.
  assert (Disks (GetStats P m env).1.1 = usage_records env parts) as ->.
  { rewrite GetStats_snapshot. simpl. unfold disk_section, parts.
    destruct (disk_Partitions env) as [ps|]; simpl; [|done].
    by rewrite disk_fold_usage_records. }
  split; [reflexivity|]. split.
  - unfold usage_records. generalize parts. clear parts.
    induction parts as [|p parts IH]; [done|]. simpl.
    destruct (is_loop_device p) eqn:Hloop.
    + rewrite filter_cons_False; [done|]. intros [? _]. congruence.
    + destruct (disk_Usage env (Mountpoint p)) as [u|] eqn:Hu; simpl.
      * rewrite filter_cons_True by eauto. simpl. f_equal. exact IH.
      * rewrite filter_cons_False; [done|]. intros [_ [? ?]]. congruence.
  - intros d. unfold usage_records. rewrite list_elem_of_omap. split.
    + intros (p & Hp & Hd). destruct (is_loop_device p) eqn:Hloop; [done|].
      destruct (disk_Usage env (Mountpoint p)) as [u|] eqn:Hu; [|done].
      injection Hd as <-. by exists p, u.
    + intros (p & u & Hp & Hloop & Hu & ->). exists p.
      split; [done|]. by rewrite Hloop, Hu.
Qed.

(** Partial failure, as in the specification: of four partitions, one a
    loop device and one whose usage query fails, the two others are in the
    snapshot, and nothing stands for the failed one. *)
Example disks_partial_failure :
  Path <$> Disks Scenario.poll1.1.1 = ["/"; "/home"]%string.
Proof. vm_compute. reflexivity. Qed.



(** * Further properties of the engine *)

From Stdlib Require Import Ascii.

(** ** The handle cache across a poll *)

Module CacheFacts.

(** The handle the loop holds for [pid] once it has met it: the cached one,
    else a new one if the provider gives one. *)
Definition handle_of (env : Provider) (cache : gmap Z Process) (pid : Z)
    : option Process :=
  match cache !! pid with
  | Some existing => Some existing
  | None => process_NewProcess env pid
  end.

Lemma poll_step_procs_lookup P env d st p pid :
  ps_procs (poll_step P env d st p) !! pid =
    if decide (pid = p) then handle_of env (ps_procs st) p
    else ps_procs st !! pid.
Proof.
  unfold poll_step, acquire, handle_of.
  destruct (ps_procs st !! p) as [existing|] eqn:Hp; simpl.
  - destruct (decide (pid = p)) as [->|]; [exact Hp|done].
  - destruct (process_NewProcess env p) as [newProc|]; simpl.
    + destruct (decide (pid = p)) as [->|].
      * by rewrite lookup_insert_eq.
      * by rewrite lookup_insert_ne.
    + destruct (decide (pid = p)) as [->|]; [exact Hp|done].
Qed.

Lemma poll_loop_procs_lookup P env d pids : forall st pid,
  ps_procs (poll_loop P env d pids st) !! pid =
    if decide (pid ∈ pids) then handle_of env (ps_procs st) pid
    else ps_procs st !! pid.
Proof.
  induction pids as [|p pids IH]; intros st pid; simpl.
  { destruct (decide (pid ∈ [])) as [Hin|]; [|done]. by apply elem_of_nil in Hin. }
  rewrite IH. unfold handle_of at 1. rewrite !poll_step_procs_lookup.
  destruct (decide (pid = p)) as [->|Hne].
  - rewrite (decide_True (P := p ∈ p :: pids)) by left.
    unfold handle_of.
    destruct (ps_procs st !! p) as [h|]; [by destruct (decide (p ∈ pids))|].
    destruct (process_NewProcess env p); by destruct (decide (p ∈ pids)).
  - destruct (decide (pid ∈ pids)) as [Hin|Hnin].
    + rewrite (decide_True (P := pid ∈ p :: pids)) by (by right). done.
    + rewrite decide_False; [done|]. by apply not_elem_of_cons.
Qed.

(** The samples of the loop: each one belongs to an enumerated PID whose
    handle the loop holds. *)
Lemma poll_loop_procInfos P env d pids : forall st p,
  p ∈ ps_procInfos (poll_loop P env d pids st) ->
  p ∈ ps_procInfos st
  \/ (PID p ∈ pids /\ is_Some (handle_of env (ps_procs st) (PID p))).
Proof.
  induction pids as [|q pids IH]; intros st p Hp; simpl in *; [by left|].
  apply IH in Hp as [Hp|[Hin Hh]].
  - unfold poll_step in Hp.
    destruct (acquire env (ps_procs st) q) as [[proc cache]|] eqn:Ha;
      [|by left].
    simpl in Hp. apply elem_of_app in Hp as [Hp|Hp]; [by left|].
    apply list_elem_of_singleton in Hp as ->. simpl. right.
    split; [by left|].
    unfold acquire in Ha. unfold handle_of.
    destruct (ps_procs st !! q); [done|].
    by destruct (process_NewProcess env q).
  - right. split; [by right|].
    unfold handle_of in *. rewrite poll_step_procs_lookup in Hh.
    destruct (decide (PID p = q)) as [<-|]; [|done].
    unfold handle_of in Hh.
    destruct (ps_procs st !! PID p); [done|].
    by destruct (process_NewProcess env (PID p)).
Qed.

End CacheFacts.

Import CacheFacts.

(** X1: after a poll whose enumeration succeeded the handle cache is known
    entry by entry: an enumerated PID keeps the handle it had, or has the
    new one the provider gave, or has none when the provider gave none; a
    PID that was not enumerated has none. *)
Theorem handle_cache_after_poll (P : Target) (m : Monitor) (env : Provider)
    (pids : list Z) (pid : Z) :
  process_Pids env = Some pids ->
  procs (GetStats P m env).2 !! pid =
    if decide (pid ∈ pids)
    then match procs m !! pid with
         | Some existing => Some existing
         | None => process_NewProcess env pid
         end
    else None.
Proof.
  intros Hpids. rewrite GetStats_monitor, Hpids. simpl.
  destruct (cleanup_lookup pids (ps_procs (poll_end P m env pids))
              (ps_lastStats (poll_end P m env pids)) pid) as [-> _].
  destruct (decide (pid ∈ pids)) as [Hin|]; [|done].
  unfold poll_end. rewrite poll_loop_procs_lookup.
  by rewrite decide_True.
Qed.

Lemma handle_cache_after_poll_witness :
  process_Pids (Scenario.provider 1000000000 (Some [100; 9]) 3000) = Some [100; 9]
  /\ procs Scenario.poll2.2 !! 100 =
       (if decide (100 ∈ [100; 9])
        then match procs Scenario.poll1.2 !! 100 with
             | Some existing => Some existing
             | None => process_NewProcess
                         (Scenario.provider 1000000000 (Some [100; 9]) 3000) 100
             end
        else None).
Proof.
  split; [reflexivity|].
  exact (handle_cache_after_poll Scenario.zero_platform Scenario.poll1.2
           (Scenario.provider 1000000000 (Some [100; 9]) 3000) [100; 9] 100 eq_refl).
Defined.

(** X2: a process shown in any of the four Top-N lists of a snapshot was
    enumerated by that poll, and the engine holds its handle when the poll
    ends. *)
Theorem top_lists_show_live_processes (P : Target) (m : Monitor) (env : Provider)
    (p : ProcessInfo) :
  let s := (GetStats P m env).1.1 in
  p ∈ TopCPU s ++ TopMem s ++ TopDisk s ++ TopNet s ->
  PID p ∈ default [] (process_Pids env)
  /\ is_Some (procs (GetStats P m env).2 !! PID p).
Proof.
  intros s. unfold s. rewrite GetStats_snapshot, GetStats_monitor. simpl.
  destruct (process_Pids env) as [pids|]; simpl.
  2:{ intros Hp. by apply elem_of_nil in Hp. }
  rewrite sort_and_slice_ranking. simpl. intros Hp.
  assert (p ∈ ps_procInfos (poll_end P m env pids)) as Hin.
  { rewrite !elem_of_app in Hp.
    destruct Hp as [Hp|[Hp|[Hp|Hp]]];
      eapply elem_of_submseteq; eauto using ranking_submseteq. }
  apply poll_loop_procInfos in Hin as [Hin|[Hpid Hh]].
  { simpl in Hin. by apply elem_of_nil in Hin. }
  split; [exact Hpid|].
  destruct (cleanup_lookup pids (ps_procs (poll_end P m env pids))
              (ps_lastStats (poll_end P m env pids)) (PID p)) as [-> _].
  rewrite decide_True by done.
  unfold poll_end. rewrite poll_loop_procs_lookup. by rewrite decide_True.
Qed.

Lemma top_lists_show_live_processes_witness :
  let s := Scenario.poll2.1.1 in
  let p := {| PID := 100; Name := "p"; CPU := 0%float; Mem := 0; DiskIO := 3000;
              DiskRate := 2000; NetConns := 0 |} in
  p ∈ TopCPU s ++ TopMem s ++ TopDisk s ++ TopNet s
  /\ PID p ∈ default [] (process_Pids (Scenario.provider 1000000000 (Some [100; 9]) 3000))
  /\ is_Some (procs Scenario.poll2.2 !! PID p).
Proof.
  intros s p.
  assert (p ∈ TopCPU s ++ TopMem s ++ TopDisk s ++ TopNet s) as Hp.
  { assert (TopCPU s ++ TopMem s ++ TopDisk s ++ TopNet s = [p; p; p; p]) as ->
      by (vm_compute; reflexivity).
    left. }
  split; [exact Hp|].
  exact (top_lists_show_live_processes Scenario.zero_platform Scenario.poll1.2
           (Scenario.provider 1000000000 (Some [100; 9]) 3000) p Hp).
Defined.

(** ** The sample cache across a poll *)

(** With an enumeration that lists no PID twice, the loop leaves in the
    sample cache, for the PIDs it went through, this poll's samples and
    nothing else. *)
Lemma poll_loop_samples P env d pids : forall st,
  NoDup pids ->
  cache_inv (ps_procs st) (ps_lastStats st) ->
  (forall p, p ∈ ps_procInfos st ->
     (PID p ∉ pids) /\ ps_lastStats st !! PID p = Some p) ->
  let st' := poll_loop P env d pids st in
  (forall p, p ∈ ps_procInfos st' -> ps_lastStats st' !! PID p = Some p)
  /\ (forall pid info, pid ∈ pids -> ps_lastStats st' !! pid = Some info ->
        info ∈ ps_procInfos st' /\ PID info = pid).
Proof.
  induction pids as [|q pids IH]; intros st Hnd Hinv Hold; simpl.
  { split; [intros p Hp; by apply Hold|].
    intros pid info Hin. by apply elem_of_nil in Hin. }
  apply NoDup_cons in Hnd as [Hq Hnd].
  set (st1 := poll_step P env d st q).
  assert (forall p, p ∈ ps_procInfos st1 ->
            (PID p ∉ pids) /\ ps_lastStats st1 !! PID p = Some p) as Hold1.
  { intros p Hp. unfold st1, poll_step in *.
    destruct (acquire env (ps_procs st) q) as [[proc cache]|] eqn:Ha.
    - simpl in *. apply elem_of_app in Hp as [Hp|Hp].
      + destruct (Hold p Hp) as [Hnin Hl].
        apply not_elem_of_cons in Hnin as [Hne Hnin].
        split; [done|]. by rewrite lookup_insert_ne.
      + apply list_elem_of_singleton in Hp as ->. simpl.
        split; [done|]. by rewrite lookup_insert_eq.
    - destruct (Hold p Hp) as [Hnin Hl].
      apply not_elem_of_cons in Hnin as [_ Hnin]. done. }
  destruct (IH st1 Hnd (poll_step_inv P env d st q Hinv) Hold1) as [Ha Hb].
  split; [exact Ha|].
  intros pid info Hin Hl. apply elem_of_cons in Hin as [->|Hin]; [|by apply Hb].
  rewrite poll_loop_lastStats_notin in Hl by done.
  unfold st1, poll_step in Hl |- *.
  destruct (acquire env (ps_procs st) q) as [[proc cache]|] eqn:Hacq.
  - simpl in Hl. rewrite lookup_insert_eq in Hl. injection Hl as <-.
    split; [|reflexivity].
    apply poll_loop_procInfos_mono. simpl.
    apply elem_of_app. right. by left.
  - exfalso. unfold acquire in Hacq.
    destruct (ps_procs st !! q) eqn:Hp; [done|].
    assert (is_Some (ps_procs st !! q)) as Hs by (apply Hinv; eauto).
    rewrite Hp in Hs. by destruct Hs.
Qed.

(** X3: when the enumeration lists no PID twice, the sample cache at the
    end of a poll is this poll's samples and nothing else: every sample of
    the poll, and so every entry of a Top-N list, is the cached sample of
    its PID, and every cached sample is one of the poll's. *)
Theorem sample_cache_is_this_poll (P : Target) (m : Monitor) (env : Provider)
    (pids : list Z) :
  reachable P m ->
  process_Pids env = Some pids ->
  NoDup pids ->
  let samples := ps_procInfos (poll_end P m env pids) in
  let s := (GetStats P m env).1.1 in
  let m' := (GetStats P m env).2 in
  (forall p, p ∈ samples -> lastStats m' !! PID p = Some p)
  /\ (forall p, p ∈ TopCPU s ++ TopMem s ++ TopDisk s ++ TopNet s ->
        lastStats m' !! PID p = Some p)
  /\ (forall pid info, lastStats m' !! pid = Some info ->
        info ∈ samples /\ PID info = pid).
Proof.
  intros Hreach Hpids Hnd samples s m'.
  assert (cache_inv (procs m) (lastStats m)) as Hinv by (by apply reachable_inv with P).
  destruct (poll_loop_samples P env (elapsed (lastTime m) (time_Now env)) pids
              (poll_start m) Hnd Hinv) as [Ha Hb].
  { intros p Hp. by apply elem_of_nil in Hp. }
  fold (poll_end P m env pids) in Ha, Hb. fold samples in Ha, Hb.
  assert (forall pid, lastStats m' !! pid =
            if decide (pid ∈ pids)
            then ps_lastStats (poll_end P m env pids) !! pid
            else match ps_procs (poll_end P m env pids) !! pid with
                 | Some _ => None
                 | None => ps_lastStats (poll_end P m env pids) !! pid
                 end) as Hm'.
  { intros pid. unfold m'. rewrite GetStats_monitor, Hpids. simpl.
    by destruct (cleanup_lookup pids (ps_procs (poll_end P m env pids))
                   (ps_lastStats (poll_end P m env pids)) pid) as [_ ->]. }
  assert (forall p, p ∈ samples -> lastStats m' !! PID p = Some p) as Hsamples.
  { intros p Hp. rewrite Hm'.
    destruct (poll_loop_procInfos _ _ _ _ _ _ Hp) as [Hnil|[Hin _]].
    { by apply elem_of_nil in Hnil. }
    rewrite decide_True by done. by apply Ha. }
  split; [exact Hsamples|]. split.
  - intros p Hp. apply Hsamples.
    unfold s in Hp. rewrite GetStats_snapshot in Hp. simpl in Hp.
    rewrite Hpids, sort_and_slice_ranking in Hp. simpl in Hp.
    rewrite !elem_of_app in Hp.
    destruct Hp as [Hp|[Hp|[Hp|Hp]]];
      eapply elem_of_submseteq; eauto using ranking_submseteq.
  - intros pid info. rewrite Hm'.
    destruct (decide (pid ∈ pids)) as [Hin|Hnin]; [by apply Hb|].
    destruct (ps_procs (poll_end P m env pids) !! pid) eqn:Hp; [done|].
    intros Hl. exfalso.
    assert (cache_inv (ps_procs (poll_end P m env pids))
              (ps_lastStats (poll_end P m env pids))) as Hinv'
      by (by apply poll_loop_inv).
    assert (is_Some (ps_procs (poll_end P m env pids) !! pid)) as Hs
      by (apply Hinv'; eauto).
    rewrite Hp in Hs. by destruct Hs.
Qed.

Lemma sample_cache_is_this_poll_witness :
  let env := Scenario.provider 1000000000 (Some [100; 9]) 3000 in
  let p := {| PID := 100; Name := "p"; CPU := 0%float; Mem := 0; DiskIO := 3000;
              DiskRate := 2000; NetConns := 0 |} in
  reachable Scenario.zero_platform Scenario.poll1.2
  /\ process_Pids env = Some [100; 9]
  /\ NoDup [100; 9]
  /\ p ∈ ps_procInfos (poll_end Scenario.zero_platform Scenario.poll1.2 env [100; 9])
  /\ lastStats Scenario.poll2.2 !! PID p = Some p.
Proof.
  intros env p.
  assert (reachable Scenario.zero_platform Scenario.poll1.2) as Hr
    by (apply reach_poll, reach_new).
  assert (NoDup [100; 9]) as Hnd
    by (apply (bool_decide_unpack _); vm_compute; exact I).
  assert (p ∈ ps_procInfos (poll_end Scenario.zero_platform Scenario.poll1.2 env
                              [100; 9])) as Hp.
  { assert (ps_procInfos (poll_end Scenario.zero_platform Scenario.poll1.2 env
                            [100; 9]) = [p]) as -> by (vm_compute; reflexivity).
    left. }
  split; [exact Hr|]. split; [reflexivity|]. split; [exact Hnd|].
  split; [exact Hp|].
  exact (proj1 (sample_cache_is_this_poll Scenario.zero_platform Scenario.poll1.2
                  env [100; 9] Hr eq_refl Hnd) p Hp).
Defined.

(** ** The Top-N lists hold the largest *)

Lemma ranking_holds_largest less (Q : ProcessInfo -> Prop) n l a b :
  strict_weak less Q -> Forall Q l ->
  a ∈ ranking less n l -> b ∈ l -> b ∉ ranking less n l ->
  less b a = false.
Proof.
  intros Hsw HQ Ha Hb Hnb. unfold ranking in *.
  pose proof (stable_sort_sorted less Q Hsw l HQ) as Hs.
  rewrite <- (take_drop n (stable_sort less l)) in Hs.
  apply (StronglySorted_app_1_elem_of _ _ _ a b Hs Ha).
  rewrite <- (stable_sort_Permutation less l) in Hb.
  rewrite <- (take_drop n (stable_sort less l)) in Hb.
  apply elem_of_app in Hb as [Hb|Hb]; done.
Qed.

(** X4: a Top-N list holds the largest: no sample left out of the memory,
    disk-rate or connection list has a larger value of that metric than a
    sample in the list; the same for the CPU list when no CPU value is a
    NaN. *)
Theorem top_lists_hold_the_largest (procInfos : list ProcessInfo) :
  let t := sort_and_slice procInfos in
  (forall a b, a ∈ top_mem t -> b ∈ procInfos -> b ∉ top_mem t -> Mem b <= Mem a)
  /\ (forall a b, a ∈ top_disk t -> b ∈ procInfos -> b ∉ top_disk t ->
        DiskRate b <= DiskRate a)
  /\ (forall a b, a ∈ top_net t -> b ∈ procInfos -> b ∉ top_net t ->
        NetConns b <= NetConns a)
  /\ (Forall (fun p => is_number (CPU p)) procInfos ->
      forall a b, a ∈ top_cpu t -> b ∈ procInfos -> b ∉ top_cpu t ->
        PrimFloat.leb (CPU b) (CPU a) = true).
Proof.
  rewrite sort_and_slice_ranking. simpl.
  assert (forall (f : ProcessInfo -> Z) a b,
            a ∈ ranking (fun p1 p2 => if negb (f p1 =? f p2) then f p2 <? f p1
                                      else PID p1 <? PID p2) top_limit procInfos ->
            b ∈ procInfos ->
            b ∉ ranking (fun p1 p2 => if negb (f p1 =? f p2) then f p2 <? f p1
                                      else PID p1 <? PID p2) top_limit procInfos ->
            f b <= f a) as Hint.
  { intros f a b Ha Hb Hnb.
    pose proof (ranking_holds_largest _ _ _ _ a b (less_int_strict_weak f)
                  (Forall_true _ _ (fun _ => I)) Ha Hb Hnb) as Hba.
    apply (bool_false_iff _ _ (less_int_spec f b a)) in Hba. lia. }
  split; [apply (Hint Mem)|]. split; [apply (Hint DiskRate)|].
  split; [apply (Hint NetConns)|].
  intros HQ a b Ha Hb Hnb.
  pose proof (ranking_holds_largest _ _ _ _ a b less_cpu_strict_weak HQ Ha Hb Hnb)
    as Hba.
  rewrite Forall_forall in HQ.
  assert (is_number (CPU a)) as Hna.
  { apply HQ. eapply elem_of_submseteq; eauto using ranking_submseteq. }
  assert (is_number (CPU b)) as Hnb' by (by apply HQ).
  apply (bool_false_iff _ _ (less_cpu_key b a Hnb' Hna)) in Hba.
  rewrite (float_leb_key _ _ Hnb' Hna). key_lia.
Qed.

(** ** An idle process *)

(** X5: a process whose cumulative disk counter has not moved since its
    cached sample is given the rate 0, whatever the time between the two
    polls. *)
Theorem idle_process_has_zero_rate (P : Target) (env : Provider)
    (lastT now : Time) (last : ProcessInfo) (pid : Z) (proc : Process) :
  let info := sample P env (elapsed lastT now) (Some last) pid proc in
  DiskIO info = DiskIO last ->
  DiskRate info = 0.
Proof.
  intros info Heq. unfold info in *. simpl in *. rewrite Heq.
  unfold disk_rate. rewrite Z.leb_refl, Z.sub_diag.
  change (float64_of_uint64 0) with 0%float.
  unfold uint64_of_float, trunc_float. rewrite div_spec.
  change (Prim2SF 0%float) with (S754_zero false).
  destruct (elapsed_positive_number lastT now) as (m & e & [-> | ->]);
    reflexivity.
Qed.

Lemma idle_process_has_zero_rate_witness :
  let env := Scenario.provider 1000000000 (Some [100]) 1000 in
  let last := {| PID := 100; Name := "p"; CPU := 0%float; Mem := 0;
                 DiskIO := 1000; DiskRate := 0; NetConns := 0 |} in
  let info := sample Scenario.zero_platform env (elapsed 0 1000000000)
                (Some last) 100 {| handle := 100 |} in
  DiskIO info = DiskIO last /\ DiskRate info = 0.
Proof.
  intros env last info.
  assert (DiskIO info = DiskIO last) as Heq by (vm_compute; reflexivity).
  split; [exact Heq|].
  exact (idle_process_has_zero_rate Scenario.zero_platform env 0 1000000000
           last 100 {| handle := 100 |} Heq).
Defined.

(** ** The arrays of the Top-N slices *)

Lemma getTop_alloc procs less limit h :
  len procs <> 0%nat ->
  exists l, s_arr (getTop procs less limit h).1 = Some l
            /\ h !! l = None
            /\ is_Some ((getTop procs less limit h).2 !! l).
Proof.
  intros Hn. unfold getTop.
  destruct (Nat.eqb_spec (len procs) 0) as [|_]; [done|].
  unfold make. set (l := fresh (dom h)).
  assert (h !! l = None) as Hfresh by (apply not_elem_of_dom, is_fresh).
  exists l. simpl.
  assert (forall h0, is_Some (SliceStable {| s_arr := Some l; s_len := len procs |}
                                less h0 !! l)) as Hs.
  { intros h0. unfold SliceStable. simpl. rewrite lookup_insert_eq. eauto. }
  destruct (limit <? len procs)%nat; simpl; auto.
Qed.

(** X6: the slice [getTop] returns for a non-empty input lies in an array
    that did not exist before the call, so it shares no storage with the
    input; and the four slices of a poll lie in four different arrays, none
    of them the array of the samples. *)
Theorem top_slices_do_not_alias (h : heap) (procs : slice) :
  valid h procs ->
  len procs <> 0%nat ->
  (forall less limit,
     exists l, s_arr (getTop procs less limit h).1 = Some l
               /\ h !! l = None /\ s_arr procs <> Some l)
  /\ (let r := (rank_all procs h).1 in
      exists lc lm ld ln,
        s_arr r.1.1.1 = Some lc /\ s_arr r.1.1.2 = Some lm
        /\ s_arr r.1.2 = Some ld /\ s_arr r.2 = Some ln
        /\ NoDup [lc; lm; ld; ln]
        /\ Forall (fun l => h !! l = None /\ s_arr procs <> Some l) [lc; lm; ld; ln]).
Proof.
  intros Hv Hn.
  assert (forall l, h !! l = None -> s_arr procs <> Some l) as Hne.
  { intros l Hl Heq. unfold valid in Hv. rewrite Heq in Hv.
    destruct Hv as (a & Ha & _). congruence. }
  split.
  { intros less limit.
    destruct (getTop_alloc procs less limit h Hn) as (l & Hl & Hf & _).
    exists l. auto. }
  unfold rank_all.
  destruct (getTop procs less_cpu top_limit h) as [c h1] eqn:E1.
  destruct (getTop procs less_mem top_limit h1) as [m h2] eqn:E2.
  destruct (getTop procs less_disk top_limit h2) as [d h3] eqn:E3.
  destruct (getTop procs less_net top_limit h3) as [n h4] eqn:E4.
  destruct (getTop_spec _ _ _ _ _ _ Hv E1) as (_ & P1 & _).
  pose proof (preserves_valid _ _ _ P1 Hv) as Hv1.
  destruct (getTop_spec _ _ _ _ _ _ Hv1 E2) as (_ & P2 & _).
  pose proof (preserves_valid _ _ _ P2 Hv1) as Hv2.
  destruct (getTop_spec _ _ _ _ _ _ Hv2 E3) as (_ & P3 & _).
  destruct (getTop_alloc procs less_cpu top_limit h Hn) as (lc & Hc & Fc & [ac Sc]).
  destruct (getTop_alloc procs less_mem top_limit h1 Hn) as (lm & Hm & Fm & [am Sm]).
  destruct (getTop_alloc procs less_disk top_limit h2 Hn) as (ld & Hd & Fd & [ad Sd]).
  destruct (getTop_alloc procs less_net top_limit h3 Hn) as (ln & Hln & Fn & _).
  rewrite E1 in Hc, Sc. rewrite E2 in Hm, Sm. rewrite E3 in Hd, Sd.
  rewrite E4 in Hln. simpl in *.
  exists lc, lm, ld, ln. repeat split; try done.
  - (* the four arrays differ: each later one is fresh for a heap that holds
       the earlier ones *)
    pose proof (P2 _ _ Sc) as Sc2. pose proof (P3 _ _ Sc2) as Sc3.
    pose proof (P3 _ _ Sm) as Sm3.
    repeat (apply NoDup_cons; split);
      rewrite ?elem_of_cons, ?elem_of_nil; try apply NoDup_nil_2;
      intuition congruence.
  - (* and fresh for the heap the poll started on *)
    assert (forall h' l, preserves h h' -> h' !! l = None -> h !! l = None) as Hback.
    { intros h' l Hp Hl. destruct (h !! l) eqn:E; [|done].
      apply Hp in E. congruence. }
    pose proof (Hback _ _ P1 Fm) as Fm0.
    pose proof (Hback _ _ (preserves_trans _ _ _ P1 P2) Fd) as Fd0.
    pose proof (Hback _ _ (preserves_trans _ _ _ (preserves_trans _ _ _ P1 P2) P3) Fn)
      as Fn0.
    repeat (apply Forall_cons; split; [split; [done|by apply Hne]|]).
    apply Forall_nil_2.
Qed.

Lemma top_slices_do_not_alias_witness :
  let l := [Scenario.proc_sample 1 5%float 30;
            Scenario.proc_sample 2 9%float 10] in
  let h : heap := {[ 1%positive := l ]} in
  let procs := {| s_arr := Some 1%positive; s_len := 2 |} in
  valid h procs
  /\ len procs <> 0%nat
  /\ exists l', s_arr (getTop procs less_cpu top_limit h).1 = Some l'
                /\ h !! l' = None /\ s_arr procs <> Some l'.
Proof.
  intros l h procs.
  assert (valid h procs) as Hv.
  { exists l. split; [reflexivity|simpl; lia]. }
  assert (len procs <> 0%nat) as Hn by (simpl; lia).
  split; [exact Hv|]. split; [exact Hn|].
  exact (proj1 (top_slices_do_not_alias h procs Hv Hn) less_cpu top_limit).
Defined.

(** * The user interface ([pkg/ui/ui.go])

    The Bubble Tea model: [Update] and the scrolling of [View], and the
    helpers [wrapBoxes], [renderProcTable], [formatBytes] and
    [formatDuration].  What lipgloss, fmt and bubbles compute (styles,
    joins, widths, number formats) is taken as given: the functions that use
    them have them as parameters. *)

Module progress.
(** [progress.Model], of which the program sets the width. *)
Record Model := { Width : Z }.
End progress.

Module strings.

(** The newline byte. *)
Definition nl : ascii := "010"%char.

(** [strings.Split(s, sep)] for a separator of one byte: the pieces between
    the separators, one more than there are separators. *)
Fixpoint Split (s : string) (sep : ascii) : list string :=
  match s with
  | EmptyString => [EmptyString]
  | String c s' =>
      if Ascii.eqb c sep then EmptyString :: Split s' sep
      else match Split s' sep with
           | [] => [String c EmptyString]
           | piece :: pieces => String c piece :: pieces
           end
  end.

(** [strings.Join(elems, sep)] *)
Fixpoint Join (elems : list string) (sep : string) : string :=
  match elems with
  | [] => EmptyString
  | [e] => e
  | e :: rest => (e ++ sep ++ Join rest sep)%string
  end.

Lemma Split_not_nil s sep : Split s sep <> [].
Proof.
  destruct s as [|c s]; simpl; [done|].
  destruct (Ascii.eqb c sep); [done|]. by destruct (Split s sep).
Qed.

Lemma Join_Split s sep : Join (Split s sep) (String sep EmptyString) = s.
Proof.
  induction s as [|c s IH]; simpl; [done|].
  destruct (Ascii.eqb_spec c sep) as [->|Hne].
  - pose proof (Split_not_nil s sep) as Hn.
    destruct (Split s sep) as [|p ps] eqn:E; [done|].
    change (Join (EmptyString :: p :: ps) (String sep EmptyString))
      with (String sep (Join (p :: ps) (String sep EmptyString))).
    by rewrite IH.
  - pose proof (Split_not_nil s sep) as Hn.
    destruct (Split s sep) as [|p ps] eqn:E; [done|].
    destruct ps as [|q qs]; simpl in *; by rewrite <- IH.
Qed.

End strings.

Module UI.

(** Go's [int]: 64 bits, two's complement. *)
Definition wrap_int (z : Z) : Z := (z + 2 ^ 63) mod 2 ^ 64 - 2 ^ 63.

Lemma wrap_int_id z : - 2 ^ 63 <= z < 2 ^ 63 -> wrap_int z = z.
Proof. intros Hz. unfold wrap_int. rewrite Z.mod_small; lia. Qed.

Lemma wrap_int_range z : - 2 ^ 63 <= wrap_int z < 2 ^ 63.
Proof.
  unfold wrap_int. pose proof (Z.mod_pos_bound (z + 2 ^ 63) (2 ^ 64)). lia.
Qed.

(** The [model] (lines 48-64).  [monitor] is a pointer: the address of the
    one [Monitor], in a store beside the model values that are copied
    around. *)
Record model := {
  monitor : positive;
  stats : SystemStats;
  cpuProg : progress.Model;
  memProg : progress.Model;
  diskProg : progress.Model;
  lastNetSent : Z;        (* uint64 *)
  lastNetRecv : Z;        (* uint64 *)
  netHistory : list Z;    (* []uint64 *)
  err : error;
  width : Z;              (* int *)
  height : Z;
  scrollOffset : Z
}.

Definition zero_SystemStats : SystemStats :=
  {| CPUUsage := 0%float; MemoryTotal := 0; MemoryUsed := 0; MemoryFree := 0;
     Disks := []; Uptime := 0; Hostname := ""; OS := ""; Platform := "";
     NetSent := 0; NetRecv := 0;
     TopCPU := []; TopMem := []; TopDisk := []; TopNet := [] |}.

(** [NewModel] (lines 66-74): [stats.NewMonitor()] allocates the monitor;
    [prog] is what [progress.New(progress.WithDefaultGradient())] returns. *)
Definition NewModel (now : Time) (prog : progress.Model) (store : gmap positive Monitor)
    : model * gmap positive Monitor :=
  let a := fresh (dom store) in
  ({| monitor := a; stats := zero_SystemStats;
      cpuProg := prog; memProg := prog; diskProg := prog;
      lastNetSent := 0; lastNetRecv := 0;
      netHistory := replicate 40 0;
      err := None; width := 0; height := 0; scrollOffset := 0 |},
   <[a := NewMonitor now]> store).

(** The messages [Update] tells apart; [KeyMsg] carries [msg.String()]. *)
Inductive Msg :=
| KeyMsg (key : string)
| WindowSizeMsg (Width Height : Z)
| tickMsg
| StatsMsg (s : SystemStats)
| errorMsg (e : string)
| otherMsg.

Inductive Cmd :=
| cmd_nil
| cmd_Quit
| cmd_tick_and_updateStats (monitor : positive).

Definition with_scrollOffset (m : model) (v : Z) : model :=
  {| monitor := monitor m; stats := stats m; cpuProg := cpuProg m;
     memProg := memProg m; diskProg := diskProg m;
     lastNetSent := lastNetSent m; lastNetRecv := lastNetRecv m;
     netHistory := netHistory m; err := err m;
     width := width m; height := height m; scrollOffset := v |}.

(** Lines 113-119. *)
Definition barWidth (Width : Z) : Z :=
  let barWidth := wrap_int (Z.quot Width 2 - 14) in
  let barWidth := if Width <? 80 then wrap_int (Width - 14) else barWidth in
  if barWidth <? 10 then 10 else barWidth.

(** Lines 127-133. *)
Definition bandwidth (m : model) (msg : SystemStats) : Z :=
  let currTotal := wrap64 (NetSent msg + NetRecv msg) in
  let prevTotal := wrap64 (lastNetSent m + lastNetRecv m) in
  if (0 <? prevTotal) && (prevTotal <=? currTotal) then currTotal - prevTotal
  else 0.

(** [Update] (lines 96-146); [None] is the panic of [m.netHistory[1:]] on an
    empty history. *)
Definition Update (m : model) (msg : Msg) : option (model * Cmd) :=
  match msg with
  | KeyMsg key =>
      if String.eqb key "q" || String.eqb key "ctrl+c" then Some (m, cmd_Quit)
      else if String.eqb key "up" || String.eqb key "k" then
        Some (if 0 <? scrollOffset m
              then with_scrollOffset m (wrap_int (scrollOffset m - 1))
              else m, cmd_nil)
      else if String.eqb key "down" || String.eqb key "j" then
        Some (with_scrollOffset m (wrap_int (scrollOffset m + 1)), cmd_nil)
      else Some (m, cmd_nil)
  | WindowSizeMsg Width Height =>
      Some ({| monitor := monitor m; stats := stats m;
               cpuProg := {| progress.Width := barWidth Width |};
               memProg := {| progress.Width := barWidth Width |};
               diskProg := diskProg m;
               lastNetSent := lastNetSent m; lastNetRecv := lastNetRecv m;
               netHistory := netHistory m; err := err m;
               width := Width; height := Height;
               scrollOffset := scrollOffset m |}, cmd_nil)
  | tickMsg => Some (m, cmd_tick_and_updateStats (monitor m))
  | StatsMsg s =>
      match netHistory m with
      | [] => None
      | _ :: rest =>
          Some ({| monitor := monitor m; stats := s;
                   cpuProg := cpuProg m; memProg := memProg m;
                   diskProg := diskProg m;
                   lastNetSent := NetSent s; lastNetRecv := NetRecv s;
                   netHistory := rest ++ [bandwidth m s]; err := err m;
                   width := width m; height := height m;
                   scrollOffset := scrollOffset m |}, cmd_nil)
      end
  | errorMsg e =>
      Some ({| monitor := monitor m; stats := stats m;
               cpuProg := cpuProg m; memProg := memProg m;
               diskProg := diskProg m;
               lastNetSent := lastNetSent m; lastNetRecv := lastNetRecv m;
               netHistory := netHistory m; err := Some e;
               width := width m; height := height m;
               scrollOffset := scrollOffset m |}, cmd_nil)
  | otherMsg => Some (m, cmd_nil)
  end.

(** The model after a sequence of messages. *)
Fixpoint run (m : model) (msgs : list Msg) : option model :=
  match msgs with
  | [] => Some m
  | msg :: rest =>
      match Update m msg with
      | Some (m', _) => run m' rest
      | None => None
      end
  end.

Lemma Update_step m msg :
  netHistory m <> [] ->
  exists m' c,
    Update m msg = Some (m', c)
    /\ length (netHistory m') = length (netHistory m)
    /\ monitor m' = monitor m
    /\ (0 <= scrollOffset m < 2 ^ 63 - 1 ->
        0 <= scrollOffset m' <= scrollOffset m + 1)
    /\ (err m' = err m \/ exists e, msg = errorMsg e).
Proof.
  intros Hh. destruct msg as [key|w h| |s|e|]; simpl.
  - destruct (String.eqb key "q" || String.eqb key "ctrl+c");
      [eexists _, _; repeat split; eauto; lia|].
    destruct (String.eqb key "up" || String.eqb key "k").
    { destruct (Z.ltb_spec 0 (scrollOffset m));
        eexists _, _; (split; [reflexivity|]); simpl; repeat split; auto;
        try (intros; rewrite wrap_int_id; lia); lia. }
    destruct (String.eqb key "down" || String.eqb key "j");
      eexists _, _; (split; [reflexivity|]); simpl; repeat split; auto;
      try (intros; rewrite wrap_int_id; lia); lia.
  - eexists _, _. split; [reflexivity|]. simpl. repeat split; auto; lia.
  - eexists _, _. split; [reflexivity|]. repeat split; auto; lia.
  - destruct (netHistory m) as [|x rest] eqn:E; [done|].
    eexists _, _. split; [reflexivity|]. simpl.
    rewrite length_app. simpl. repeat split; auto; lia.
  - eexists _, _. split; [reflexivity|]. simpl. repeat split; eauto; lia.
  - eexists _, _. split; [reflexivity|]. repeat split; auto; lia.
Qed.

Lemma run_invariant msgs : forall m k,
  length (netHistory m) = 40%nat ->
  exists m',
    run m msgs = Some m'
    /\ length (netHistory m') = 40%nat
    /\ monitor m' = monitor m
    /\ (0 <= scrollOffset m <= k -> k + Z.of_nat (length msgs) < 2 ^ 63 ->
        0 <= scrollOffset m' <= k + Z.of_nat (length msgs)).
Proof.
  induction msgs as [|msg msgs IH]; intros m k Hlen.
  { exists m. simpl. repeat split; auto; lia. }
  destruct (Update_step m msg) as (m1 & c & Hu & Hl & Hmon & Hs & _).
  { intros E. rewrite E in Hlen. done. }
  destruct (IH m1 (k + 1)) as (m' & Hr & Hl' & Hmon' & Hs'); [congruence|].
  exists m'. simpl. rewrite Hu. split; [exact Hr|]. split; [exact Hl'|].
  split; [congruence|].
  intros Hk Hb. rewrite Nat2Z.inj_succ in Hb |- *.
  assert (0 <= scrollOffset m1 <= scrollOffset m + 1) by (apply Hs; lia).
  assert (0 <= scrollOffset m' <= k + 1 + Z.of_nat (length msgs))
    by (apply Hs'; lia).
  lia.
Qed.

(** X7: starting from [NewModel], [Update] never panics, whatever the
    messages are: the bandwidth history always has its 40 entries, so
    [m.netHistory[1:]] is in range; the monitor pointer never changes; and
    the scroll offset stays between 0 and the number of messages received
    (fewer than 2^63 of them). *)
Theorem Update_never_panics (now : Time) (prog : progress.Model)
    (store : gmap positive Monitor) (msgs : list Msg) :
  exists m,
    run (NewModel now prog store).1 msgs = Some m
    /\ length (netHistory m) = 40%nat
    /\ monitor m = monitor (NewModel now prog store).1
    /\ (Z.of_nat (length msgs) < 2 ^ 63 ->
        0 <= scrollOffset m <= Z.of_nat (length msgs)).
Proof.
  destruct (run_invariant msgs (NewModel now prog store).1 0)
    as (m & Hr & Hl & Hmon & Hs); [reflexivity|].
  exists m. repeat split; auto; apply Hs; simpl; lia.
Qed.

(** X9: a window-size message gives both progress bars the same width,
    never under 10: for a terminal at least 80 columns wide half the width
    less 14, for a narrower one the width less 14, and 10 under 24 columns;
    the model takes the new size. *)
Theorem bars_fit_the_window (m : model) (Width Height : Z) :
  exists m',
    Update m (WindowSizeMsg Width Height) = Some (m', cmd_nil)
    /\ width m' = Width /\ height m' = Height
    /\ progress.Width (cpuProg m') = progress.Width (memProg m')
    /\ 10 <= progress.Width (cpuProg m')
    /\ (0 <= Width < 2 ^ 63 ->
        progress.Width (cpuProg m') =
          if Width <? 24 then 10
          else if Width <? 80 then Width - 14
          else Width / 2 - 14).
Proof.
  eexists. split; [reflexivity|]. simpl. repeat split.
  - unfold barWidth.
    match goal with |- 10 <= (if ?a <? 10 then _ else _) =>
      destruct (Z.ltb_spec a 10); lia
    end.
  - intros Hw. unfold barWidth.
    rewrite Z.quot_div_nonneg by lia.
    pose proof (Z.div_pos Width 2 ltac:(lia) ltac:(lia)).
    assert (Width / 2 <= Width) by (apply Z.div_le_upper_bound; lia).
    rewrite !wrap_int_id by lia.
    destruct (Z.ltb_spec Width 80), (Z.ltb_spec Width 24); try lia.
    + destruct (Z.ltb_spec (Width - 14) 10); lia.
    + destruct (Z.ltb_spec (Width - 14) 10); lia.
    + destruct (Z.ltb_spec (Width / 2 - 14) 10); [|lia].
      assert (40 <= Width / 2) by (apply Z.div_le_lower_bound; lia). lia.
Qed.

(** X10: the rate shown after two snapshots in a row is the growth of the
    total of bytes sent and received from the first to the second, and 0
    when the first total is 0 or the total went down; it does not depend on
    anything older, and it is never negative. *)
Theorem current_rate_is_growth (m m1 m2 : model) (s1 s2 : SystemStats) (c1 c2 : Cmd) :
  Update m (StatsMsg s1) = Some (m1, c1) ->
  Update m1 (StatsMsg s2) = Some (m2, c2) ->
  let t1 := wrap64 (NetSent s1 + NetRecv s1) in
  let t2 := wrap64 (NetSent s2 + NetRecv s2) in
  last (netHistory m2) = Some (if (0 <? t1) && (t1 <=? t2) then t2 - t1 else 0)
  /\ (forall rate, last (netHistory m2) = Some rate -> 0 <= rate)
  /\ stats m2 = s2.
Proof.
  simpl. destruct (netHistory m) as [|x rest]; [done|]. intros [= <- <-].
  simpl. destruct (rest ++ [bandwidth m s1]) as [|y rest'] eqn:E; [done|].
  intros [= <- <-]. simpl. rewrite last_snoc. unfold bandwidth. simpl.
  split; [reflexivity|]. split; [|reflexivity].
  intros rate [= <-].
  destruct (0 <? _) eqn:H1; simpl; [|lia].
  destruct (Z.leb_spec (wrap64 (NetSent s1 + NetRecv s1))
              (wrap64 (NetSent s2 + NetRecv s2))); lia.
Qed.

(** A snapshot that carries the two network counters only. *)
Definition net_snapshot (sent recv : Z) : SystemStats :=
  {| CPUUsage := 0%float; MemoryTotal := 0; MemoryUsed := 0; MemoryFree := 0;
     Disks := []; Uptime := 0; Hostname := ""; OS := ""; Platform := "";
     NetSent := sent; NetRecv := recv;
     TopCPU := []; TopMem := []; TopDisk := []; TopNet := [] |}.

(** 1500 bytes in all at the first snapshot, 2700 at the second: the rate
    shown is 1200. *)
Lemma current_rate_is_growth_witness :
  let m := (NewModel 0 {| progress.Width := 40 |} ∅).1 in
  let s1 := net_snapshot 1000 500 in
  let s2 := net_snapshot 1800 900 in
  exists m1 m2,
    Update m (StatsMsg s1) = Some (m1, cmd_nil)
    /\ Update m1 (StatsMsg s2) = Some (m2, cmd_nil)
    /\ last (netHistory m2) = Some 1200
    /\ (forall rate, last (netHistory m2) = Some rate -> 0 <= rate)
    /\ stats m2 = s2.
Proof.
  intros m s1 s2. eexists _, _.
  split; [reflexivity|]. split; [reflexivity|].
  exact (current_rate_is_growth m _ _ s1 s2 cmd_nil cmd_nil eq_refl eq_refl).
Defined.

(** ** [View]: the scrolling window (lines 262-281) *)

(** [None] is a slice bound out of range. *)
Definition scroll_window (lines : list string) (height scrollOffset : Z)
    : option (list string) :=
  let maxOffset := wrap_int (Z.of_nat (length lines) - height) in
  let maxOffset := if maxOffset <? 0 then 0 else maxOffset in
  let scrollOffset := if maxOffset <? scrollOffset then maxOffset else scrollOffset in
  let scrollOffset := if scrollOffset <? 0 then 0 else scrollOffset in
  (* lines[m.scrollOffset:] *)
  if (scrollOffset <? 0) || (Z.of_nat (length lines) <? scrollOffset) then None
  else
    let visibleLines := drop (Z.to_nat scrollOffset) lines in
    if height <? Z.of_nat (length visibleLines) then
      (* visibleLines[:m.height] *)
      if height <? 0 then None
      else Some (take (Z.to_nat height) visibleLines)
    else Some visibleLines.

(** The offset [View] scrolls to: the stored one, kept between 0 and the
    last offset that still fills the window. *)
Definition clamped_offset (nlines height scrollOffset : Z) : Z :=
  Z.max 0 (Z.min scrollOffset (Z.max 0 (nlines - height))).

Lemma scroll_window_spec lines height scrollOffset :
  0 <= height < 2 ^ 63 ->
  Z.of_nat (length lines) < 2 ^ 63 ->
  scroll_window lines height scrollOffset =
    Some (take (Z.to_nat height)
            (drop (Z.to_nat (clamped_offset (Z.of_nat (length lines)) height
                               scrollOffset)) lines)).
Proof.
  intros Hh Hl. unfold scroll_window, clamped_offset.
  rewrite wrap_int_id by lia.
  set (n := Z.of_nat (length lines)) in *.
  set (mo := if n - height <? 0 then 0 else n - height).
  assert (mo = Z.max 0 (n - height)) as Hmo
    by (unfold mo; destruct (Z.ltb_spec (n - height) 0); lia).
  set (o1 := if mo <? scrollOffset then mo else scrollOffset).
  assert (o1 = Z.min scrollOffset mo) as Ho1
    by (unfold o1; destruct (Z.ltb_spec mo scrollOffset); lia).
  set (o2 := if o1 <? 0 then 0 else o1).
  assert (o2 = Z.max 0 o1) as Ho2
    by (unfold o2; destruct (Z.ltb_spec o1 0); lia).
  rewrite <- Hmo, <- Ho1, <- Ho2.
  assert (0 <= o2 <= n) by lia.
  destruct (Z.ltb_spec o2 0); [lia|].
  destruct (Z.ltb_spec n o2); [lia|]. simpl.
  destruct (Z.ltb_spec height (Z.of_nat (length (drop (Z.to_nat o2) lines))))
    as [Hlt|Hge].
  - destruct (Z.ltb_spec height 0); [lia|done].
  - by rewrite take_ge by lia.
Qed.

Lemma scroll_window_negative_height lines height scrollOffset :
  height < 0 -> scroll_window lines height scrollOffset = None.
Proof.
  intros Hh. unfold scroll_window.
  destruct (_ || _); [done|].
  destruct (Z.ltb_spec height (Z.of_nat (length (drop
     (Z.to_nat (if (if (if wrap_int (Z.of_nat (length lines) - height) <? 0
                         then 0 else wrap_int (Z.of_nat (length lines) - height))
                        <? scrollOffset
                     then if wrap_int (Z.of_nat (length lines) - height) <? 0
                          then 0 else wrap_int (Z.of_nat (length lines) - height)
                     else scrollOffset) <? 0 then 0
                else if (if wrap_int (Z.of_nat (length lines) - height) <? 0
                         then 0 else wrap_int (Z.of_nat (length lines) - height))
                        <? scrollOffset
                     then if wrap_int (Z.of_nat (length lines) - height) <? 0
                          then 0 else wrap_int (Z.of_nat (length lines) - height)
                     else scrollOffset)) lines)))); [|lia].
  destruct (Z.ltb_spec height 0); [done|lia].
Qed.

Section View.

(** Lines 153-260: the four rows laid out with lipgloss, from the snapshot,
    the three progress bars, the width and the current network rate. *)
Variable content :
  SystemStats -> progress.Model -> progress.Model -> progress.Model -> Z -> Z -> string.

(** [View] (lines 148-282); [None] is a panic: an index or a slice bound
    out of range. *)
Definition View (m : model) : option string :=
  match err m with
  | Some e => Some ("Error: " ++ e ++ String strings.nl "")%string
  | None =>
      (* m.netHistory[len(m.netHistory)-1] *)
      match last (netHistory m) with
      | None => None
      | Some netRate =>
          let fullContent :=
            content (stats m) (cpuProg m) (memProg m) (diskProg m) (width m)
              netRate in
          let lines := strings.Split fullContent strings.nl in
          match scroll_window lines (height m) (scrollOffset m) with
          | Some visibleLines =>
              Some (strings.Join visibleLines (String strings.nl ""))
          | None => None
          end
      end
  end.

(** The lines of the full content of a model. *)
Definition content_lines (m : model) : list string :=
  strings.Split
    (content (stats m) (cpuProg m) (memProg m) (diskProg m) (width m)
       (default 0 (last (netHistory m)))) strings.nl.

Lemma View_window m :
  err m = None -> netHistory m <> [] ->
  View m =
    (fun visible => strings.Join visible (String strings.nl ""))
      <$> scroll_window (content_lines m) (height m) (scrollOffset m).
Proof.
  intros He Hh. unfold View, content_lines. rewrite He.
  destruct (last (netHistory m)) as [netRate|] eqn:El.
  - simpl. by destruct (scroll_window _ _ _).
  - apply last_None in El. done.
Qed.

(** X11: with no error and a window of height [h >= 0], [View] shows the
    lines of the content from the clamped offset on, [h] of them at most;
    when the content has no more lines than the window it is shown whole,
    as it is, wherever the offset stands; a negative height makes [View]
    panic. *)
Theorem View_shows_the_window (m : model) :
  err m = None ->
  netHistory m <> [] ->
  let lines := content_lines m in
  let n := Z.of_nat (length lines) in
  (0 <= height m < 2 ^ 63 -> n < 2 ^ 63 ->
   exists visible,
     View m = Some (strings.Join visible (String strings.nl ""))
     /\ visible = take (Z.to_nat (height m))
                    (drop (Z.to_nat (clamped_offset n (height m) (scrollOffset m)))
                       lines)
     /\ Z.of_nat (length visible) <= height m
     /\ (n <= height m ->
         View m = Some (content (stats m) (cpuProg m) (memProg m) (diskProg m)
                          (width m) (default 0 (last (netHistory m))))))
  /\ (height m < 0 -> View m = None).
Proof.
  intros He Hh lines n. rewrite (View_window m He Hh). fold lines. split.
  - intros Hht Hn. rewrite scroll_window_spec by done. fold n.
    eexists. split; [reflexivity|]. split; [reflexivity|]. split.
    + rewrite length_take. lia.
    + intros Hfit. simpl. f_equal.
      assert (clamped_offset n (height m) (scrollOffset m) = 0) as ->
        by (unfold clamped_offset; lia).
      change (Z.to_nat 0) with 0%nat. rewrite drop_0.
      rewrite take_ge by (unfold n in Hfit; lia).
      apply strings.Join_Split.
  - intros Hneg. by rewrite scroll_window_negative_height.
Qed.

(** X12: the clamping of [View] is not stored: [down] adds 1 to the offset
    even at the end of the content, and while the stored offset is beyond
    the last offset that fills the window, [up] takes 1 from it and the
    view does not move. *)
Theorem scrolling_past_the_end (m : model) :
  err m = None ->
  netHistory m <> [] ->
  0 <= height m < 2 ^ 63 ->
  Z.of_nat (length (content_lines m)) < 2 ^ 63 ->
  let last_offset := Z.max 0 (Z.of_nat (length (content_lines m)) - height m) in
  (last_offset <= scrollOffset m < 2 ^ 63 - 1 ->
   exists m', Update m (KeyMsg "down") = Some (m', cmd_nil)
              /\ scrollOffset m' = scrollOffset m + 1
              /\ View m' = View m)
  /\ (last_offset < scrollOffset m < 2 ^ 63 ->
      exists m', Update m (KeyMsg "up") = Some (m', cmd_nil)
                 /\ scrollOffset m' = scrollOffset m - 1
                 /\ View m' = View m).
Proof.
  intros He Hh Hht Hn last_offset.
  assert (forall v, 0 <= v -> last_offset <= v -> last_offset <= scrollOffset m ->
            View (with_scrollOffset m v) = View m) as Hsame.
  { intros v Hv Hlv Hlm.
    rewrite (View_window m He Hh), (View_window (with_scrollOffset m v) He Hh).
    change (content_lines (with_scrollOffset m v)) with (content_lines m).
    simpl. rewrite !scroll_window_spec by done.
    simpl. do 4 f_equal. unfold clamped_offset. fold last_offset. lia. }
  split.
  - intros Hs. eexists. simpl. split; [reflexivity|]. simpl.
    rewrite wrap_int_id by lia. split; [reflexivity|].
    apply Hsame; lia.
  - intros Hs. simpl.
    destruct (Z.ltb_spec 0 (scrollOffset m)); [|lia].
    eexists. split; [reflexivity|]. simpl.
    rewrite wrap_int_id by lia. split; [reflexivity|].
    apply Hsame; lia.
Qed.

End View.

(** A model with three lines of content, for a window of the given height. *)
Definition three_lines : string :=
  ("one" ++ String strings.nl "two" ++ String strings.nl "three")%string.

Definition example_model (height scrollOffset : Z) : model :=
  {| monitor := 1%positive; stats := zero_SystemStats;
     cpuProg := {| progress.Width := 40 |}; memProg := {| progress.Width := 40 |};
     diskProg := {| progress.Width := 40 |};
     lastNetSent := 0; lastNetRecv := 0; netHistory := replicate 40 0;
     err := None; width := 80; height := height; scrollOffset := scrollOffset |}.

Lemma View_shows_the_window_witness :
  let content := fun _ _ _ _ _ _ => three_lines in
  let m := example_model 5 2 in
  err m = None
  /\ netHistory m <> []
  /\ 0 <= height m < 2 ^ 63
  /\ Z.of_nat (length (content_lines content m)) < 2 ^ 63
  /\ Z.of_nat (length (content_lines content m)) <= height m
  /\ View content m = Some three_lines.
Proof.
  intros content m.
  assert (err m = None) as He by reflexivity.
  assert (netHistory m <> []) as Hh by discriminate.
  assert (0 <= height m < 2 ^ 63) as Hht by (simpl; lia).
  assert (Z.of_nat (length (content_lines content m)) < 2 ^ 63) as Hn
    by (vm_compute; reflexivity).
  assert (Z.of_nat (length (content_lines content m)) <= height m) as Hfit
    by (vm_compute; discriminate).
  repeat (split; [assumption|]).
  destruct (proj1 (View_shows_the_window content m He Hh) Hht Hn)
    as (visible & _ & _ & _ & Hall).
  exact (Hall Hfit).
Defined.

Lemma scrolling_past_the_end_witness :
  let content := fun _ _ _ _ _ _ => three_lines in
  let m := example_model 2 4 in
  err m = None
  /\ netHistory m <> []
  /\ 0 <= height m < 2 ^ 63
  /\ Z.of_nat (length (content_lines content m)) < 2 ^ 63
  /\ Z.max 0 (Z.of_nat (length (content_lines content m)) - height m)
       < scrollOffset m < 2 ^ 63
  /\ exists m', Update m (KeyMsg "up") = Some (m', cmd_nil)
                /\ scrollOffset m' = scrollOffset m - 1
                /\ View content m' = View content m.
Proof.
  intros content m.
  assert (err m = None) as He by reflexivity.
  assert (netHistory m <> []) as Hh by discriminate.
  assert (0 <= height m < 2 ^ 63) as Hht by (simpl; lia).
  assert (Z.of_nat (length (content_lines content m)) < 2 ^ 63) as Hn
    by (vm_compute; reflexivity).
  assert (Z.max 0 (Z.of_nat (length (content_lines content m)) - height m)
          < scrollOffset m < 2 ^ 63) as Hs by (vm_compute; split; reflexivity).
  repeat (split; [assumption|]).
  exact (proj2 (scrolling_past_the_end content m He Hh Hht Hn) Hs).
Defined.

(** ** [wrapBoxes] (lines 284-309) *)

Section WrapBoxes.

(** [lipgloss.Width], [lipgloss.JoinHorizontal(lipgloss.Top, ...)] and
    [lipgloss.JoinVertical(lipgloss.Left, ...)]. *)
Variable lipgloss_Width : string -> Z.
Variable JoinHorizontal : list string -> string.
Variable JoinVertical : list string -> string.

(** The loop, for any way [join] of closing a row: [JoinHorizontal] in the
    program. *)
Record wrap_state (R : Type) := {
  finalRows : list R;
  currentRow : list string;
  currentWidth : Z
}.
Arguments finalRows {R}.
Arguments currentRow {R}.
Arguments currentWidth {R}.

Definition wrap_step {R} (join : list string -> R) (maxWidth : Z)
    (st : wrap_state R) (box : string) : wrap_state R :=
  let w := lipgloss_Width box in
  let st :=
    if (maxWidth <? wrap_int (currentWidth st + w))
       && (0 <? Z.of_nat (length (currentRow st)))
    then {| finalRows := finalRows st ++ [join (currentRow st)];
            currentRow := []; currentWidth := 0 |}
    else st in
  {| finalRows := finalRows st;
     currentRow := currentRow st ++ [box];
     currentWidth := wrap_int (currentWidth st + w) |}.

Definition wrap_rows {R} (join : list string -> R) (boxes : list string)
    (maxWidth : Z) : list R :=
  let st := fold_left (wrap_step join maxWidth) boxes
              {| finalRows := []; currentRow := []; currentWidth := 0 |} in
  if 0 <? Z.of_nat (length (currentRow st))
  then finalRows st ++ [join (currentRow st)]
  else finalRows st.

Definition wrapBoxes (boxes : list string) (maxWidth : Z) : string :=
  if (Z.of_nat (length boxes) =? 0) then ""%string
  else JoinVertical (wrap_rows JoinHorizontal boxes maxWidth).

(** The width of a row. *)
Definition row_width (row : list string) : Z :=
  foldr (fun box acc => lipgloss_Width box + acc) 0 row.

Lemma row_width_app r1 r2 : row_width (r1 ++ r2) = row_width r1 + row_width r2.
Proof. induction r1 as [|b r1 IH]; simpl; [done|]. rewrite IH. lia. Qed.

(** Each row but the last is full: the first box of the next one did not
    fit beside it. *)
Fixpoint rows_full (maxWidth : Z) (rows : list (list string)) : Prop :=
  match rows with
  | r :: ((r' :: _) as rest) =>
      (exists b, head r' = Some b /\ maxWidth < row_width r + lipgloss_Width b)
      /\ rows_full maxWidth rest
  | _ => True
  end.

Lemma rows_full_snoc_new maxWidth rows r b :
  rows_full maxWidth (rows ++ [r]) ->
  maxWidth < row_width r + lipgloss_Width b ->
  rows_full maxWidth ((rows ++ [r]) ++ [[b]]).
Proof.
  intros Hf Hb. induction rows as [|r0 rows IH]; simpl in *.
  { split; [|done]. exists b. by split. }
  destruct (rows ++ [r]) as [|r1 rest] eqn:E.
  { by destruct rows. }
  simpl. destruct Hf as [H1 H2]. split; [exact H1|]. by apply IH.
Qed.

Lemma rows_full_snoc_grow maxWidth rows r b :
  r <> [] ->
  rows_full maxWidth (rows ++ [r]) ->
  rows_full maxWidth (rows ++ [r ++ [b]]).
Proof.
  intros Hr Hf. induction rows as [|r0 rows IH]; simpl in *; [done|].
  destruct (rows ++ [r]) as [|r1 rest] eqn:E; [by destruct rows|].
  destruct Hf as [(b1 & Hh & Hw) H2].
  destruct (rows ++ [r ++ [b]]) as [|r1' rest'] eqn:E'; [by destruct rows|].
  split; [|by apply IH].
  exists b1. split; [|exact Hw].
  destruct rows as [|r2 rows]; simpl in E, E'.
  - injection E as <- <-. injection E' as <- <-.
    destruct r; [done|]. exact Hh.
  - injection E as <- <-. injection E' as <- <-. exact Hh.
Qed.

(** The rows in which [wrapBoxes] groups the boxes. *)
Definition rows_of (boxes : list string) (maxWidth : Z) : list (list string) :=
  wrap_rows (fun row => row) boxes maxWidth.

Lemma wrap_fold_join {R} (join : list string -> R) maxWidth boxes : forall st st',
  finalRows st = join <$> finalRows st' ->
  currentRow st = currentRow st' -> currentWidth st = currentWidth st' ->
  let r := fold_left (wrap_step join maxWidth) boxes st in
  let r' := fold_left (wrap_step (fun row => row) maxWidth) boxes st' in
  finalRows r = join <$> finalRows r'
  /\ currentRow r = currentRow r' /\ currentWidth r = currentWidth r'.
Proof.
  induction boxes as [|b boxes IH]; intros st st' HF HC HW; simpl; [done|].
  apply IH; unfold wrap_step; rewrite HC, HW;
    destruct (_ && _); simpl; rewrite ?fmap_app, ?HF, ?HC, ?HW; done.
Qed.

Lemma wrap_rows_join {R} (join : list string -> R) boxes maxWidth :
  wrap_rows join boxes maxWidth = join <$> rows_of boxes maxWidth.
Proof.
  unfold rows_of, wrap_rows.
  destruct (wrap_fold_join join maxWidth boxes
              {| finalRows := []; currentRow := []; currentWidth := 0 |}
              {| finalRows := []; currentRow := []; currentWidth := 0 |})
    as (HF & HC & HW); try done.
  rewrite HF, HC. destruct (0 <? _); [|done].
  rewrite fmap_app. done.
Qed.

(** The state of the loop: the closed rows and the open one hold the boxes
    met so far, in order; no closed row is empty; a row of more than one box
    fits; every row but the open one is full. *)
Record wrap_inv (maxWidth : Z) (seen : list string)
    (st : wrap_state (list string)) : Prop := {
  wi_concat : concat (finalRows st) ++ currentRow st = seen;
  wi_width : currentWidth st = row_width (currentRow st);
  wi_start : currentRow st = [] -> finalRows st = [];
  wi_nonempty : Forall (fun r => r <> []) (finalRows st);
  wi_fit : Forall (fun r => length r = 1%nat \/ row_width r <= maxWidth)
             (finalRows st ++ [currentRow st]) \/ currentRow st = [];
  wi_full : currentRow st <> [] ->
            rows_full maxWidth (finalRows st ++ [currentRow st])
}.

Lemma wrap_step_inv maxWidth seen st box :
  0 <= lipgloss_Width box ->
  row_width (seen ++ [box]) < 2 ^ 63 ->
  Forall (fun b => 0 <= lipgloss_Width b) seen ->
  wrap_inv maxWidth seen st ->
  wrap_inv maxWidth (seen ++ [box]) (wrap_step (fun row => row) maxWidth st box).
Proof.
  intros Hw Hsum Hpos [Hc Hwd Hst Hne Hfit Hfull].
  assert (forall l, Forall (fun b => 0 <= lipgloss_Width b) l -> 0 <= row_width l)
    as Hrw.
  { induction 1; simpl; lia. }
  assert (row_width (currentRow st) <= row_width seen) as Hle.
  { rewrite <- Hc, row_width_app.
    assert (0 <= row_width (concat (finalRows st))); [|lia].
    apply Hrw. rewrite <- Hc in Hpos. by apply Forall_app in Hpos as [? _]. }
  assert (0 <= row_width (currentRow st)) as Hge.
  { apply Hrw. rewrite <- Hc in Hpos. by apply Forall_app in Hpos as [_ ?]. }
  rewrite row_width_app in Hsum. simpl in Hsum.
  unfold wrap_step. rewrite Hwd, wrap_int_id by lia.
  destruct (Z.ltb_spec maxWidth (row_width (currentRow st) + lipgloss_Width box))
    as [Hover|Hfits];
    destruct (Z.ltb_spec 0 (Z.of_nat (length (currentRow st)))) as [Hrow|Hrow];
    simpl.
  - (* the row is closed, the box opens the next one *)
    assert (currentRow st <> []) as Hcne by (intros E; rewrite E in Hrow; simpl in Hrow; lia).
    split; simpl.
    + rewrite concat_app. simpl. rewrite app_nil_r, <- Hc. by rewrite <- app_assoc.
    + rewrite wrap_int_id by lia. lia.
    + done.
    + apply Forall_app. split; [done|]. by constructor.
    + left. destruct Hfit as [Hfit|]; [|done].
      apply Forall_app. split; [exact Hfit|]. constructor; [by left|constructor].
    + intros _. apply rows_full_snoc_new; [by apply Hfull|lia].
  - (* the first box of all *)
    assert (currentRow st = []) as Hcn by (destruct (currentRow st); [done|simpl in Hrow; lia]).
    rewrite Hcn in *. rewrite (Hst eq_refl) in *. simpl in *.
    split; simpl; try done.
    + by rewrite <- Hc.
    + rewrite wrap_int_id by lia. lia.
    + left. constructor; [by left|constructor].
  - (* the box fits beside the others *)
    assert (currentRow st <> []) as Hcne by (intros E; rewrite E in Hrow; simpl in Hrow; lia).
    split; simpl.
    + by rewrite app_assoc, Hc.
    + rewrite wrap_int_id by lia. rewrite row_width_app. simpl. lia.
    + intros E. by apply app_eq_nil in E as [_ ?].
    + done.
    + left. destruct Hfit as [Hfit|]; [|done].
      apply Forall_app in Hfit as [Hf _].
      apply Forall_app. split; [exact Hf|].
      constructor; [|constructor]. right. rewrite row_width_app. simpl. lia.
    + intros _. apply rows_full_snoc_grow; [done|by apply Hfull].
  - assert (currentRow st = []) as Hcn by (destruct (currentRow st); [done|simpl in Hrow; lia]).
    rewrite Hcn in *. rewrite (Hst eq_refl) in *. simpl in *.
    split; simpl; try done.
    + by rewrite <- Hc.
    + rewrite wrap_int_id by lia. lia.
    + left. constructor; [by left|constructor].
Qed.

Lemma wrap_fold_inv maxWidth boxes : forall seen st,
  Forall (fun b => 0 <= lipgloss_Width b) (seen ++ boxes) ->
  row_width (seen ++ boxes) < 2 ^ 63 ->
  wrap_inv maxWidth seen st ->
  wrap_inv maxWidth (seen ++ boxes)
    (fold_left (wrap_step (fun row => row) maxWidth) boxes st).
Proof.
  induction boxes as [|b boxes IH]; intros seen st Hpos Hsum Hinv; simpl.
  { by rewrite app_nil_r. }
  replace (seen ++ b :: boxes) with ((seen ++ [b]) ++ boxes) in *
    by (by rewrite <- app_assoc).
  assert (Hall := Hpos).
  apply Forall_app in Hpos as [Hsb Hbx].
  apply Forall_app in Hsb as [Hs Hb]. apply Forall_cons in Hb as [Hb _].
  apply IH; [done|done|].
  apply wrap_step_inv; auto.
  rewrite row_width_app in Hsum.
  assert (0 <= row_width boxes) as Hnn; [|lia].
  clear -Hbx. unfold row_width. induction Hbx; simpl in *; lia.
Qed.

Lemma wrap_inv_start maxWidth :
  wrap_inv maxWidth []
    {| finalRows := []; currentRow := []; currentWidth := 0 |}.
Proof. split; simpl; auto. Qed.

(** X13: [wrapBoxes] lays the boxes out in rows, in their order and losing
    none; no row is empty; a row of several boxes is at most [maxWidth]
    wide (a box wider than that has a row of its own); and a row is closed
    only when the next box would not fit beside it.  The widths are those
    of lipgloss, not negative, and their sum is an [int]. *)
Theorem wrapBoxes_rows (boxes : list string) (maxWidth : Z) :
  Forall (fun b => 0 <= lipgloss_Width b) boxes ->
  row_width boxes < 2 ^ 63 ->
  let rows := rows_of boxes maxWidth in
  wrapBoxes boxes maxWidth =
    (match boxes with
     | [] => ""%string
     | _ => JoinVertical (JoinHorizontal <$> rows)
     end)
  /\ concat rows = boxes
  /\ Forall (fun r => r <> []) rows
  /\ Forall (fun r => length r = 1%nat \/ row_width r <= maxWidth) rows
  /\ rows_full maxWidth rows.
Proof.
  intros Hpos Hsum rows. split.
  { unfold wrapBoxes. destruct boxes; [done|]. simpl.
    by rewrite (wrap_rows_join JoinHorizontal). }
  pose proof (wrap_fold_inv maxWidth boxes [] _ Hpos Hsum (wrap_inv_start maxWidth))
    as [Hc Hwd Hst Hne Hfit Hfull].
  unfold rows, rows_of, wrap_rows. simpl in Hc.
  set (st := fold_left _ boxes _) in *.
  destruct (Z.ltb_spec 0 (Z.of_nat (length (currentRow st)))) as [Hrow|Hrow].
  - assert (currentRow st <> []) as Hcne
      by (intros E; rewrite E in Hrow; simpl in Hrow; lia).
    split; [by rewrite concat_app; simpl; rewrite app_nil_r|].
    split; [apply Forall_app; split; [done|by constructor]|].
    split; [by destruct Hfit|]. by apply Hfull.
  - assert (currentRow st = []) as Hcn
      by (destruct (currentRow st); [done|simpl in Hrow; lia]).
    rewrite (Hst Hcn) in *. rewrite Hcn in Hc. simpl in *. subst boxes.
    repeat split; constructor.
Qed.

End WrapBoxes.

Lemma wrapBoxes_rows_witness :
  let Width := fun box => Z.of_nat (String.length box) in
  let boxes := ["aaaa"; "bbb"; "cccccccccccc"; "dd"; "ee"]%string in
  Forall (fun b => 0 <= Width b) boxes
  /\ row_width Width boxes < 2 ^ 63
  /\ rows_of Width boxes 8 =
       [["aaaa"; "bbb"]; ["cccccccccccc"]; ["dd"; "ee"]]%string
  /\ concat (rows_of Width boxes 8) = boxes
  /\ rows_full Width 8 (rows_of Width boxes 8).
Proof.
  intros Width boxes.
  assert (Forall (fun b => 0 <= Width b) boxes) as Hpos
    by (repeat constructor; vm_compute; discriminate).
  assert (row_width Width boxes < 2 ^ 63) as Hsum by (vm_compute; reflexivity).
  split; [exact Hpos|]. split; [exact Hsum|]. split; [reflexivity|].
  pose proof (wrapBoxes_rows Width (String.concat "") (String.concat "")
                boxes 8 Hpos Hsum) as (_ & Hc & _ & _ & Hf).
  split; [exact Hc|exact Hf].
Defined.

(** ** [renderProcTable] (lines 311-329) *)

Lemma string_length_append (s1 s2 : string) :
  String.length (s1 ++ s2) = (String.length s1 + String.length s2)%nat.
Proof. induction s1 as [|c s1 IH]; simpl; [done|]. by rewrite IH. Qed.

Lemma string_length_substring_0 (n : nat) : forall s : string,
  (n <= String.length s)%nat -> String.length (substring 0 n s) = n.
Proof.
  induction n as [|n IH]; intros s Hn.
  { by destruct s. }
  destruct s as [|c s]; simpl in *; [lia|]. rewrite IH; lia.
Qed.

Lemma string_prefix_substring_0 (n : nat) : forall s : string,
  String.prefix (substring 0 n s) s = true.
Proof.
  induction n as [|n IH]; intros s.
  { by destruct s. }
  destruct s as [|c s]; simpl; [done|].
  destruct (ascii_dec c c); [apply IH|done].
Qed.

(** Lines 316-319: a name of more than 18 bytes is cut to its first 15,
    followed by three dots. *)
Definition display_name (name : string) : string :=
  if 18 <? Z.of_nat (String.length name)
  then (substring 0 15 name ++ "...")%string
  else name.

(** X14: the name shown in a process table is never longer than 18 bytes:
    a name of at most 18 bytes is shown as it is, a longer one as its first
    15 bytes and three dots, 18 bytes in all. *)
Theorem display_name_fits (name : string) :
  (String.length (display_name name) <= 18)%nat
  /\ ((String.length name <= 18)%nat -> display_name name = name)
  /\ ((18 < String.length name)%nat ->
      String.length (display_name name) = 18%nat
      /\ exists head, display_name name = (head ++ "...")%string
                      /\ String.length head = 15%nat
                      /\ String.prefix head name = true).
Proof.
  unfold display_name.
  destruct (Z.ltb_spec 18 (Z.of_nat (String.length name))) as [Hlong|Hshort].
  - assert (String.length (substring 0 15 name) = 15%nat) as H15
      by (apply string_length_substring_0; lia).
    rewrite string_length_append, H15. simpl.
    split; [lia|]. split; [lia|]. intros _. split; [lia|].
    exists (substring 0 15 name). split; [done|]. split; [done|].
    apply string_prefix_substring_0.
  - split; [lia|]. split; [done|]. lia.
Qed.

Section ProcTable.

(** [tableHeaderStyle.Render], [tableRowStyle.Render],
    [infoBoxStyle.Width(35).Render], [fmt.Sprintf("%-20s %10s", _, _)] and
    [lipgloss.JoinVertical(lipgloss.Left, ...)]. *)
Variable tableHeaderStyle_Render : string -> string.
Variable tableRowStyle_Render : string -> string.
Variable infoBoxStyle_35_Render : string -> string.
Variable Sprintf_row : string -> string -> string.
Variable JoinVertical_Left : list string -> string.

Definition proc_row (valueFn : ProcessInfo -> string) (p : ProcessInfo) : string :=
  tableRowStyle_Render (Sprintf_row (display_name (Name p)) (valueFn p)).

(** [for len(rows) < 7 { rows = append(rows, " ") }], with the number of
    rounds it may take. *)
Fixpoint pad_rows (fuel : nat) (rows : list string) : list string :=
  if Z.of_nat (length rows) <? 7 then
    match fuel with
    | O => rows
    | S fuel' => pad_rows fuel' (rows ++ [" "%string])
    end
  else rows.

(** The rows of the table, before they are joined and boxed. *)
Definition table_rows (title : string) (procs : list ProcessInfo)
    (valueFn : ProcessInfo -> string) : list string :=
  let rows := [tableHeaderStyle_Render (Sprintf_row title "Value")] in
  let rows := fold_left (fun rows p => rows ++ [proc_row valueFn p]) procs rows in
  pad_rows 7 rows.

Definition renderProcTable (title : string) (procs : list ProcessInfo)
    (valueFn : ProcessInfo -> string) : string :=
  infoBoxStyle_35_Render (JoinVertical_Left (table_rows title procs valueFn)).

Lemma pad_rows_spec fuel : forall rows,
  (7 <= length rows + fuel)%nat ->
  pad_rows fuel rows = rows ++ replicate (7 - length rows) " "%string.
Proof.
  induction fuel as [|fuel IH]; intros rows Hf; simpl.
  - destruct (Z.ltb_spec (Z.of_nat (length rows)) 7); [lia|].
    replace (7 - length rows)%nat with 0%nat by lia. by rewrite app_nil_r.
  - destruct (Z.ltb_spec (Z.of_nat (length rows)) 7) as [Hlt|Hge].
    + rewrite IH by (rewrite length_app; simpl; lia).
      rewrite length_app. simpl. rewrite <- app_assoc. f_equal.
      replace (7 - length rows)%nat with (S (7 - (length rows + 1)))%nat by lia.
      done.
    + replace (7 - length rows)%nat with 0%nat by lia. by rewrite app_nil_r.
Qed.

Lemma fold_rows_spec valueFn procs : forall rows,
  fold_left (fun rows p => rows ++ [proc_row valueFn p]) procs rows =
    rows ++ (proc_row valueFn <$> procs).
Proof.
  induction procs as [|p procs IH]; intros rows; simpl.
  { by rewrite app_nil_r. }
  rewrite IH. by rewrite <- app_assoc.
Qed.

Lemma table_rows_spec title procs valueFn :
  table_rows title procs valueFn =
    tableHeaderStyle_Render (Sprintf_row title "Value")
    :: (proc_row valueFn <$> procs)
    ++ replicate (6 - length procs) " "%string.
Proof.
  unfold table_rows. rewrite fold_rows_spec.
  rewrite pad_rows_spec by (simpl; lia).
  simpl. rewrite length_fmap. done.
Qed.

(** X15: a process table is its header, one row for each process in the
    order of the list, and blank rows up to 7 rows in all; so the four
    tables drawn from a snapshot of [GetStats], of at most 5 processes
    each, are 7 rows high whatever the poll found. *)
Theorem proc_tables_are_seven_rows (P : Target) (m : Monitor) (env : Provider)
    (title : string) (valueFn : ProcessInfo -> string) :
  (forall procs,
     table_rows title procs valueFn =
       tableHeaderStyle_Render (Sprintf_row title "Value")
       :: (proc_row valueFn <$> procs)
       ++ replicate (6 - length procs) " "%string)
  /\ (let s := (GetStats P m env).1.1 in
      length (table_rows title (TopCPU s) valueFn) = 7%nat
      /\ length (table_rows title (TopMem s) valueFn) = 7%nat
      /\ length (table_rows title (TopDisk s) valueFn) = 7%nat
      /\ length (table_rows title (TopNet s) valueFn) = 7%nat).
Proof.
  split; [intros procs; apply table_rows_spec|].
  assert (forall procs, (length procs <= 5)%nat ->
            length (table_rows title procs valueFn) = 7%nat) as H7.
  { intros procs Hl. rewrite table_rows_spec. simpl.
    rewrite length_app, length_fmap, length_replicate. lia. }
  rewrite GetStats_snapshot. simpl.
  destruct (process_Pids env) as [pids|]; simpl.
  - rewrite sort_and_slice_ranking. simpl.
    repeat split; apply H7; rewrite ranking_length; unfold top_limit; lia.
  - repeat split; apply H7; simpl; lia.
Qed.

End ProcTable.

(** ** [formatBytes] (lines 336-347) *)

Section FormatBytes.

(** [fmt.Sprintf("%d B", b)] and [fmt.Sprintf("%.1f %cB", f, c)]. *)
Variable Sprintf_d_B : Z -> string.
Variable Sprintf_f_cB : float -> ascii -> string.

(** [for n := b / unit; n >= unit; n /= unit { div *= unit; exp++ }];
    [None] when the rounds allowed run out. *)
Fixpoint unit_loop (fuel : nat) (n div exp : Z) : option (Z * Z) :=
  if 1024 <=? n then
    match fuel with
    | O => None
    | S fuel' => unit_loop fuel' (n / 1024) (wrap64 (div * 1024)) (wrap_int (exp + 1))
    end
  else Some (div, exp).

(** [None] is a panic: the index of ["KMGTPE"[exp]] out of range. *)
Definition formatBytes (b : Z) : option string :=
  if b <? 1024 then Some (Sprintf_d_B b)
  else
    match unit_loop 64 (b / 1024) 1024 0 with
    | Some (div, exp) =>
        match String.get (Z.to_nat exp) "KMGTPE" with
        | Some c =>
            if exp <? 0 then None
            else Some (Sprintf_f_cB
                         (PrimFloat.div (float64_of_uint64 b) (float64_of_uint64 div))
                         c)
        | None => None
        end
    | None => None
    end.

Lemma unit_loop_spec b fuel : forall n div exp,
  0 <= exp -> div = 1024 ^ (exp + 1) -> n = b / div -> 1 <= n ->
  n < 1024 ^ (Z.of_nat fuel + 1) -> b < 2 ^ 64 ->
  exists exp', unit_loop fuel n div exp = Some (1024 ^ (exp' + 1), exp')
               /\ exp <= exp'
               /\ 1024 ^ (exp' + 1) <= b < 1024 ^ (exp' + 2).
Proof.
  induction fuel as [|fuel IH]; intros n div exp He Hdiv Hn H1 Hfuel Hb; simpl.
  - change (1024 ^ (0 + 1)) with 1024 in Hfuel.
    destruct (Z.leb_spec 1024 n); [lia|].
    exists exp. subst div. split; [done|]. split; [lia|].
    assert (0 < 1024 ^ (exp + 1)) as Hp by (apply Z.pow_pos_nonneg; lia).
    replace (exp + 2) with (Z.succ (exp + 1)) by lia.
    rewrite Z.pow_succ_r by lia.
    pose proof (Z.mul_div_le b _ Hp).
    pose proof (Z.mul_succ_div_gt b _ Hp). subst n. nia.
  - assert (0 < 1024 ^ (exp + 1)) as Hp by (apply Z.pow_pos_nonneg; lia).
    destruct (Z.leb_spec 1024 n) as [Hbig|Hsmall].
    + assert (1024 ^ (exp + 2) = div * 1024) as Hd2.
      { replace (exp + 2) with (Z.succ (exp + 1)) by lia.
        rewrite Z.pow_succ_r by lia. subst div. lia. }
      assert (div * 1024 <= b) as Hle.
      { subst div n. pose proof (Z.mul_div_le b _ Hp). nia. }
      unfold wrap64. rewrite Z.mod_small by (subst div; lia).
      rewrite wrap_int_id.
      2:{ assert (exp + 1 < 7); [|lia].
          destruct (Z.lt_ge_cases (exp + 1) 7) as [|Hge]; [done|].
          assert (1024 ^ 7 <= 1024 ^ (exp + 1))
            by (apply Z.pow_le_mono_r; lia).
          change (1024 ^ 7) with (2 ^ 70) in *. subst div. lia. }
      destruct (IH (n / 1024) (div * 1024) (exp + 1)) as (exp' & Hr & Hee & Hbb);
        try lia.
      * replace (exp + 1 + 1) with (exp + 2) by lia. done.
      * subst n div. rewrite Z.div_div by lia. done.
      * apply Z.div_le_lower_bound; lia.
      * apply Z.div_lt_upper_bound; [lia|].
        replace (Z.of_nat (S fuel) + 1) with (Z.succ (Z.of_nat fuel + 1)) in Hfuel
          by lia.
        rewrite Z.pow_succ_r in Hfuel by lia. lia.
      * exists exp'. split; [exact Hr|]. split; [lia|exact Hbb].
    + exists exp. subst div. split; [done|]. split; [lia|].
      replace (exp + 2) with (Z.succ (exp + 1)) by lia.
      rewrite Z.pow_succ_r by lia.
      pose proof (Z.mul_div_le b _ Hp).
      pose proof (Z.mul_succ_div_gt b _ Hp). subst n. nia.
Qed.

(** X16: for every [uint64] number of bytes [formatBytes] returns, and
    never panics on its table of units: under 1024 it prints the bytes;
    otherwise it picks the unit of index [exp <= 5] in KMGTPE, the one with
    [1024^(exp+1) <= b < 1024^(exp+2)], and prints the binary64 quotient of
    [float64(b)] by [float64(1024^(exp+1))].  The bounds are those of the
    integer [b]; the quotient printed is a binary64 and can round up to
    1024 ([formatBytes_quotient_rounds_to_1024]). *)
Theorem formatBytes_picks_the_unit (b : Z) :
  0 <= b < 2 ^ 64 ->
  if b <? 1024 then formatBytes b = Some (Sprintf_d_B b)
  else exists exp c,
         0 <= exp <= 5
         /\ String.get (Z.to_nat exp) "KMGTPE" = Some c
         /\ 1024 ^ (exp + 1) <= b < 1024 ^ (exp + 2)
         /\ formatBytes b =
              Some (Sprintf_f_cB
                      (PrimFloat.div (float64_of_uint64 b)
                         (float64_of_uint64 (1024 ^ (exp + 1)))) c).
Proof.
  intros Hb. unfold formatBytes.
  destruct (Z.ltb_spec b 1024) as [|Hbig]; [done|].
  destruct (unit_loop_spec b 64 (b / 1024) 1024 0) as (exp & Hr & He & Hbb);
    try done; try lia.
  - apply Z.div_le_lower_bound; lia.
  - apply Z.div_lt_upper_bound; [lia|].
    assert (2 ^ 64 < 1024 * 1024 ^ (Z.of_nat 64 + 1)) by (vm_compute; reflexivity).
    lia.
  - rewrite Hr.
    assert (exp <= 5) as H5.
    { destruct (Z.lt_ge_cases exp 6) as [|Hge]; [lia|].
      assert (1024 ^ 7 <= 1024 ^ (exp + 1)) by (apply Z.pow_le_mono_r; lia).
      change (1024 ^ 7) with (2 ^ 70) in *. lia. }
    assert (exists c, String.get (Z.to_nat exp) "KMGTPE" = Some c) as [c Hc].
    { assert (exp = 0 \/ exp = 1 \/ exp = 2 \/ exp = 3 \/ exp = 4 \/ exp = 5)
        as [->|[->|[->|[->|[->| ->]]]]] by lia; simpl; eauto. }
    exists exp, c. rewrite Hc.
    destruct (Z.ltb_spec exp 0); [lia|]. repeat split; auto; lia.
Qed.

End FormatBytes.

(** The quotient printed for 2^60 - 1 bytes, one byte short of 1024 PB, is
    1024: [float64] rounds the byte count up to 2^60. *)
Example formatBytes_quotient_rounds_to_1024 :
  2 ^ 60 - 1 < 1024 ^ 6
  /\ PrimFloat.div (float64_of_uint64 (2 ^ 60 - 1)) (float64_of_uint64 (1024 ^ 5))
     = 1024%float.
Proof. split; [lia|vm_compute; reflexivity]. Qed.

Lemma formatBytes_picks_the_unit_witness :
  let fmt_d := fun _ : Z => "bytes"%string in
  let fmt_f := fun (_ : float) (c : ascii) => String c "B" in
  0 <= 5000000 < 2 ^ 64
  /\ exists exp c,
       0 <= exp <= 5
       /\ String.get (Z.to_nat exp) "KMGTPE" = Some c
       /\ 1024 ^ (exp + 1) <= 5000000 < 1024 ^ (exp + 2)
       /\ formatBytes fmt_d fmt_f 5000000 =
            Some (fmt_f (PrimFloat.div (float64_of_uint64 5000000)
                           (float64_of_uint64 (1024 ^ (exp + 1)))) c).
Proof.
  intros fmt_d fmt_f.
  assert (0 <= 5000000 < 2 ^ 64) as Hb by lia.
  split; [exact Hb|].
  exact (formatBytes_picks_the_unit fmt_d fmt_f 5000000 Hb).
Defined.

End UI.
